(** * pg_simula: the interception-and-dispatch engine of [pg_simula.c]

    A shallow embedding of [src/pg_simula.c] (a PostgreSQL extension that
    injects simulated failures before planned and utility statements) and
    the properties of its rule cache, reentrancy guard and dispatcher.

    Conventions of the embedding.
    - A C string ([char *]) is a [string] of bytes; reading stops at the
      first NUL byte or at the end of the [string], whichever comes first,
      so the end of the Rocq string plays the role of the terminator.
    - [int] is [Z] with its 32-bit wrap-around written out ([wrap_int]);
      PostgreSQL and its extensions are compiled with [-fwrapv].
    - The file-scope variables of the C file and the part of the backend
      they interact with form the record [World]; every function of the C
      file is a computation in the monad [M] over it.  [ereport] at level
      ERROR or above leaves the function by a non-local exit: [Throw].
    - The backend itself (SPI, the catalog, the next handler of each hook)
      is not part of the C file; it enters as a [Host] interface. *)

From Stdlib Require Import ZArith List Bool String Ascii Lia.
From Stdlib Require Import Numbers.DecimalString Numbers.DecimalZ.
Import ListNotations.

Local Open Scope string_scope.
Local Open Scope Z_scope.

(** ** C strings and [pg_strcasecmp] *)

Module CString.

(** The value of a byte as [unsigned char]. *)
Definition byte (c : ascii) : Z := Z.of_N (N_of_ascii c).

Definition NUL : ascii := Ascii.zero.

(** [*s] and [s + 1] for a C string whose terminator is the end of the
    Rocq string. *)
Definition peek (s : string) : ascii :=
  match s with
  | EmptyString => NUL
  | String c _ => c
  end.

Definition advance (s : string) : string :=
  match s with
  | EmptyString => EmptyString
  | String _ r => r
  end.

(** The bytes of a C string up to its terminator. *)
Fixpoint c_str (s : string) : string :=
  match s with
  | EmptyString => EmptyString
  | String c r => if (byte c =? 0) then EmptyString else String c (c_str r)
  end.

(** [if (ch >= 'A' && ch <= 'Z') ch += 'a' - 'A';] of [pg_strcasecmp].
    The second arm of the C code ([IS_HIGHBIT_SET(ch) && isupper(ch)])
    never fires in the C locale, which is the one modelled. *)
Definition fold_case (ch : Z) : Z :=
  if (65 <=? ch) && (ch <=? 90) then ch + (97 - 65) else ch.

(** [pg_strcasecmp] of PostgreSQL's port library, loop for loop. *)
Fixpoint pg_strcasecmp (s1 s2 : string) {struct s1} : Z :=
  let ch1 := byte (peek s1) in
  let ch2 := byte (peek s2) in
  let '(ch1, ch2) :=
    if negb (ch1 =? ch2) then (fold_case ch1, fold_case ch2) else (ch1, ch2) in
  if negb (ch1 =? ch2) then ch1 - ch2
  else if ch1 =? 0 then 0
  else match s1 with
       | EmptyString => 0
       | String _ r1 => pg_strcasecmp r1 (advance s2)
       end.

(** The specification-level notion the comparisons are measured against:
    two strings agree once their letters A-Z are folded to lower case. *)
Definition lower (c : ascii) : ascii :=
  ascii_of_N (Z.to_N (fold_case (byte c))).

Fixpoint lower_string (s : string) : string :=
  match s with
  | EmptyString => EmptyString
  | String c r => String (lower c) (lower_string r)
  end.

Definition same_nocase (s1 s2 : string) : Prop :=
  lower_string (c_str s1) = lower_string (c_str s2).

(** [strncpy(dst, src, n)]: the [n] bytes left in [dst].  Copying stops
    at the terminator of [src] and the rest is filled with NUL; when
    [src] has [n] bytes or more, no terminator is written. *)
Fixpoint strncpy (src : string) (n : nat) : string :=
  match n with
  | O => EmptyString
  | S n' =>
      match src with
      | EmptyString => String NUL (strncpy EmptyString n')
      | String c r =>
          if byte c =? 0 then String NUL (strncpy EmptyString n')
          else String c (strncpy r n')
      end
  end.

(** The first [n] bytes of a string. *)
Fixpoint take (n : nat) (s : string) : string :=
  match n, s with
  | S n', String c r => String c (take n' r)
  | _, _ => EmptyString
  end.

(** The memory of a [char] array of [n] bytes that holds [s]: the bytes
    of [s] as far as the array goes, NUL where [s] has none left. *)
Fixpoint buffer (n : nat) (s : string) : string :=
  match n with
  | O => EmptyString
  | S n' => String (peek s) (buffer n' (advance s))
  end.

End CString.
Import CString.

(** ** Integers *)

(** [int] arithmetic: the value reduced to 32 bits, two's complement. *)
Definition wrap_int (z : Z) : Z := (z + 2 ^ 31) mod 2 ^ 32 - 2 ^ 31.

(** [isspace] in the C locale. *)
Definition isspace (c : ascii) : bool :=
  let n := byte c in (n =? 32) || ((9 <=? n) && (n <=? 13)).

Fixpoint skip_space (s : string) : string :=
  match s with
  | EmptyString => EmptyString
  | String c r => if isspace c then skip_space r else s
  end.

Definition digit_val (c : ascii) : option Z :=
  let n := byte c in
  if (48 <=? n) && (n <=? 57) then Some (n - 48) else None.

Fixpoint atoi_digits (acc : Z) (s : string) : Z :=
  match s with
  | EmptyString => acc
  | String c r =>
      match digit_val c with
      | Some d => atoi_digits (acc * 10 + d) r
      | None => acc
      end
  end.

(** [atoi]: leading white space, an optional sign, then decimal digits up
    to the first byte that is not one. *)
Definition atoi (s : string) : Z :=
  match skip_space s with
  | String "-"%char r => wrap_int (- atoi_digits 0 r)
  | String "+"%char r => wrap_int (atoi_digits 0 r)
  | t => wrap_int (atoi_digits 0 t)
  end.

(** The four bytes of an [int] in memory, lowest first, as on the
    little-endian machines PostgreSQL usually runs on. *)
Definition int_bytes (z : Z) : string :=
  let u := z mod 2 ^ 32 in
  let b (k : Z) := ascii_of_N (Z.to_N ((u / 2 ^ (8 * k)) mod 256)) in
  String (b 0) (String (b 1) (String (b 2) (String (b 3) EmptyString))).

(** What [%d] prints for an [int]. *)
Definition fmt_d (z : Z) : string := NilEmpty.string_of_int (Z.to_int z).

(** What [%s] prints for a C string. *)
Definition fmt_s (s : string) : string := c_str s.

(** ** The backend state and the effects of the C code *)

Definition EVENT_TABLE_NAME : string := "simula_events".
Definition MAX_LENGTH : nat := 100.

(** [executor/spi.h]. *)
Definition SPI_OK_SELECT : Z := 5.

(** [struct SimulaEvent]: two buffers of [MAX_LENGTH] bytes and an [int].
    A field of the record is what its buffer holds, as [strncpy] leaves
    it. *)
Record SimulaEvent := mkEvent {
  operation : string;
  action : string;
  sec : Z
}.

(** The struct in memory.  The fields follow one another without padding:
    [operation] at offset 0, [action] at offset 100, [sec] at offset 200,
    204 bytes in all.  [strncpy] writes no terminator into a buffer it
    fills, so a C string read at [event->operation] that meets no NUL in
    the first buffer goes on through [action], and from there through the
    bytes of [sec].  [at_operation] and [at_action] are the bytes such a
    read has before it, from the field to the end of the struct.  What
    lies behind the struct belongs to the allocator and is not determined
    by the file; the end of the Rocq string stands for it.  A comparison
    with a string shorter than [MAX_LENGTH] never reads past the field it
    starts in ([pg_strcasecmp_buffer]). *)
Definition at_action (event : SimulaEvent) : string :=
  (buffer MAX_LENGTH (action event) ++ int_bytes (sec event))%string.

Definition at_operation (event : SimulaEvent) : string :=
  (buffer MAX_LENGTH (operation event) ++ at_action event)%string.

(** A row of [simula_events(operation text PRIMARY KEY, action text,
    sec integer)]; only the key column is NOT NULL. *)
Record Row := mkRow {
  row_operation : string;
  row_action : option string;
  row_sec : option Z
}.

(** The relation as the backend holds it; [None] when it does not exist. *)
Definition Db : Type := option (list Row).

(** A tuple of an SPI result: the text of each column, [None] for NULL. *)
Definition Tuple : Type := list (option string).

Inductive HookPoint := Planner | Utility.
Inductive Handler := PrevHook | StandardHandler.
Inductive elevel := ERROR | FATAL | PANIC.

(** What an [ereport]/[elog] of this file, or an error raised inside the
    backend, reports. *)
Inductive Report :=
| SPI_execute_failed (ret : Z)
| invalid_action (act : string)
| simulation_by_pg_simula
| host_error (msg : string).

(** Observable steps, in the order they happen.  [EvSPI] records the
    value of the reentrancy guard at the time of the request and [EvFire]
    marks the call [act->func(event->sec)]; both are ghost observations. *)
Inductive Event :=
| EvSPI (sql : string) (read_only : bool) (guarded : bool)
| EvFire (name : string) (param : Z)
| EvSleep (microsec : Z)
| EvForward (point : HookPoint) (next : Handler) (tag : string).

Record World := mkWorld {
  (* file-scope variables of pg_simula.c *)
  SimulaEvents : list SimulaEvent;
  prev_planner : bool;            (* is a previous planner hook installed *)
  prev_ProcessUtility : bool;     (* is a previous utility hook installed *)
  in_simula_event_progress : bool;
  registered_to_callback : bool;
  simulation_enabled : bool;
  (* the backend *)
  transaction_state : bool;       (* IsTransactionState() *)
  extension_oid_valid : bool;     (* OidIsValid(get_extension_oid(..., true)) *)
  db : Db;
  trace : list Event
}.

Definition set_SimulaEvents (l : list SimulaEvent) (w : World) : World :=
  mkWorld l (prev_planner w) (prev_ProcessUtility w)
    (in_simula_event_progress w) (registered_to_callback w)
    (simulation_enabled w) (transaction_state w) (extension_oid_valid w)
    (db w) (trace w).

Definition set_in_simula_event_progress (b : bool) (w : World) : World :=
  mkWorld (SimulaEvents w) (prev_planner w) (prev_ProcessUtility w)
    b (registered_to_callback w)
    (simulation_enabled w) (transaction_state w) (extension_oid_valid w)
    (db w) (trace w).

Definition set_registered_to_callback (b : bool) (w : World) : World :=
  mkWorld (SimulaEvents w) (prev_planner w) (prev_ProcessUtility w)
    (in_simula_event_progress w) b
    (simulation_enabled w) (transaction_state w) (extension_oid_valid w)
    (db w) (trace w).

Definition set_db (d : Db) (w : World) : World :=
  mkWorld (SimulaEvents w) (prev_planner w) (prev_ProcessUtility w)
    (in_simula_event_progress w) (registered_to_callback w)
    (simulation_enabled w) (transaction_state w) (extension_oid_valid w)
    d (trace w).

Definition emit (e : Event) (w : World) : World :=
  mkWorld (SimulaEvents w) (prev_planner w) (prev_ProcessUtility w)
    (in_simula_event_progress w) (registered_to_callback w)
    (simulation_enabled w) (transaction_state w) (extension_oid_valid w)
    (db w) (trace w ++ [e]).

(** How a call of a C function ends: it returns, it leaves through
    [ereport] at [ERROR] or above, or it dereferences a NULL pointer.
    [OutOfFuel] belongs to the model only (see [hook]). *)
Inductive Outcome (A : Type) : Type :=
| Return (a : A) (w : World)
| Throw (lvl : elevel) (r : Report) (w : World)
| Crash (w : World)
| OutOfFuel.

Arguments Return {A} a w.
Arguments Throw {A} lvl r w.
Arguments Crash {A} w.
Arguments OutOfFuel {A}.

Definition M (A : Type) : Type := World -> Outcome A.

Definition ret {A : Type} (a : A) : M A := fun w => Return a w.

Definition bind {A B : Type} (m : M A) (k : A -> M B) : M B :=
  fun w =>
    match m w with
    | Return a w' => k a w'
    | Throw lvl r w' => Throw lvl r w'
    | Crash w' => Crash w'
    | OutOfFuel => OutOfFuel
    end.

Declare Scope simula_scope.
Delimit Scope simula_scope with simula.
Notation "x <- c1 ;; c2" := (bind c1 (fun x => c2))
  (at level 61, c1 at next level, right associativity) : simula_scope.
Notation "c1 ;; c2" := (bind c1 (fun _ => c2))
  (at level 61, right associativity) : simula_scope.
Local Open Scope simula_scope.

Definition get : M World := fun w => Return w w.
Definition modify (f : World -> World) : M unit := fun w => Return tt (f w).
Definition ereport {A : Type} (lvl : elevel) (r : Report) : M A :=
  fun w => Throw lvl r w.
Definition null_dereference {A : Type} : M A := fun w => Crash w.

(** The world an outcome leaves behind, and the events a run added. *)
Definition world_of {A : Type} (o : Outcome A) : option World :=
  match o with
  | Return _ w | Throw _ _ w | Crash w => Some w
  | OutOfFuel => None
  end.

Definition is_fire (e : Event) : bool :=
  match e with EvFire _ _ => true | _ => false end.

Definition is_query (e : Event) : bool :=
  match e with EvSPI _ _ _ => true | _ => false end.

Definition fired (w : World) : list Event := filter is_fire (trace w).
Definition queries (w : World) : list Event := filter is_query (trace w).

(** ** The action registry *)

(** [pg_usleep] of the port library: a delay that is not positive is no
    delay at all. *)
Definition pg_usleep (microsec : Z) : M unit :=
  if 0 <? microsec then modify (emit (EvSleep microsec)) else ret tt.

Definition error_func (sec : Z) : M unit := ereport ERROR simulation_by_pg_simula.
Definition panic_func (sec : Z) : M unit := ereport PANIC simulation_by_pg_simula.
Definition wait_func (sec : Z) : M unit :=
  pg_usleep (wrap_int (wrap_int (sec * 1000) * 1000)).
Definition fatal_func (sec : Z) : M unit := ereport FATAL simulation_by_pg_simula.

Definition act_func : Type := Z -> M unit.

Record Action := mkAction {
  act_name : string;
  func : act_func
}.

(** [ActionTable]; the terminating [{NULL, NULL}] entry is the end of the
    list. *)
Definition ActionTable : list Action :=
  [ mkAction "error" error_func;
    mkAction "panic" panic_func;
    mkAction "wait" wait_func;
    mkAction "fatal" fatal_func ].

(** [for (act = ActionTable; act->action != NULL; act++)
       if (pg_strcasecmp(act->action, name) == 0) ...] *)
Fixpoint lookup_action (table : list Action) (name : string) : option Action :=
  match table with
  | [] => None
  | act :: rest =>
      if pg_strcasecmp (act_name act) name =? 0 then Some act
      else lookup_action rest name
  end.

(** ** The functions of [pg_simula.c] that do not reach the backend *)

Definition needReloadAndEvent (commandTag : string) (w : World) : bool :=
  simulation_enabled w &&
  negb (in_simula_event_progress w) &&
  transaction_state w &&
  negb (pg_strcasecmp commandTag "START TRANSACTION" =? 0) &&
  negb (pg_strcasecmp commandTag "BEGIN" =? 0).

Definition isPgSimulaLoaded : M bool :=
  fun w => Return (extension_oid_valid w) w.

Definition pg_simula_xact_callback : M unit :=
  modify (set_in_simula_event_progress false).

(** The [foreach] of [doEventIfAny] from a given cell on.  The inner
    [for] over [ActionTable] is [lookup_action]; when it finds nothing the
    outer loop goes on with the next cell.  [event->operation] and
    [event->action] are pointers into the struct. *)
Fixpoint doEventIfAny_from (cells : list SimulaEvent) (commandTag : string)
  : M unit :=
  match cells with
  | [] => ret tt
  | event :: rest =>
      if pg_strcasecmp (at_operation event) commandTag =? 0 then
        match lookup_action ActionTable (at_action event) with
        | Some act =>
            modify (emit (EvFire (act_name act) (sec event))) ;;
            func act (sec event)
        | None => doEventIfAny_from rest commandTag
        end
      else doEventIfAny_from rest commandTag
  end.

Definition doEventIfAny (commandTag : string) : M unit :=
  fun w => doEventIfAny_from (SimulaEvents w) commandTag w.

(** [SPI_getvalue(tuple, tupdesc, fnumber)]: the text of a column, NULL
    for a NULL value or a column that does not exist. *)
Definition SPI_getvalue (tuple : Tuple) (fnumber : nat) : option string :=
  match fnumber with
  | O => None
  | S k => match nth_error tuple k with
           | Some v => v
           | None => None
           end
  end.

(** The body of the [for] loop of [reloadEventTableData] for one tuple,
    then the rest of the loop.  [strncpy] and [atoi] dereference their
    argument. *)
Fixpoint load_tuples (vals : list Tuple) : M unit :=
  match vals with
  | [] => ret tt
  | tuple :: rest =>
      match SPI_getvalue tuple 1, SPI_getvalue tuple 2, SPI_getvalue tuple 3 with
      | Some operation, Some action, Some sec =>
          let event := mkEvent (strncpy operation MAX_LENGTH)
                               (strncpy action MAX_LENGTH)
                               (atoi sec) in
          modify (fun w => set_SimulaEvents (SimulaEvents w ++ [event]) w) ;;
          load_tuples rest
      | _, _, _ => null_dereference
      end
  end.

(** The texts handed to [SPI_execute]. *)
Definition select_sql : string :=
  ("SELECT * FROM public." ++ EVENT_TABLE_NAME)%string.

Definition insert_sql (ope_str act_str : string) (sec : Z) : string :=
  ("INSERT INTO " ++ EVENT_TABLE_NAME ++ " VALUES('" ++ fmt_s ope_str
   ++ "', '" ++ fmt_s act_str ++ "', " ++ fmt_d sec ++ ") ON CONFLICT "
   ++ "ON CONSTRAINT simula_events_pkey "
   ++ "DO UPDATE SET (action, sec) = (excluded.action, excluded.sec)")%string.

Definition truncate_sql : string :=
  ("TRUNCATE " ++ EVENT_TABLE_NAME)%string.

(** ** The backend as the C file sees it *)

(** What [SPI_execute] does with a text: it returns a code, a tuple table
    (or NULL) and the relation as the statement leaves it, or it raises an
    error of its own.  [SPI_processed] is the length of the tuple table. *)
Inductive SpiReply :=
| SpiReturn (code : Z) (tuptable : option (list Tuple)) (db' : Db)
| SpiRaise (msg : string).

(** [spi_statements src d]: the statements the backend finds in a text
    and analyses against the relation, each sent through the planner hook
    or the utility hook under its command tag before it is executed. *)
Record Host := mkHost {
  spi_statements : string -> Db -> list (HookPoint * string);
  spi_run : string -> bool -> Db -> SpiReply
}.

Section Engine.

Variable host : Host.

(** The hooks as the backend calls them for a statement run through SPI. *)
Variable nested : HookPoint -> string -> M Handler.

Fixpoint run_statements (stmts : list (HookPoint * string)) : M unit :=
  match stmts with
  | [] => ret tt
  | (point, tag) :: rest => nested point tag ;; run_statements rest
  end.

Definition SPI_execute (src : string) (read_only : bool)
  : M (Z * option (list Tuple)) :=
  w <- get ;;
  modify (emit (EvSPI src read_only (in_simula_event_progress w))) ;;
  run_statements (spi_statements host src (db w)) ;;
  w <- get ;;
  match spi_run host src read_only (db w) with
  | SpiReturn code tuptable db' => modify (set_db db') ;; ret (code, tuptable)
  | SpiRaise msg => ereport ERROR (host_error msg)
  end.

Definition reloadEventTableData : M unit :=
  modify (set_SimulaEvents []) ;;
  loaded <- isPgSimulaLoaded ;;
  if negb loaded then ret tt
  else
    reply <- SPI_execute select_sql true ;;
    let '(r, tuptable) := reply in
    if negb (r =? SPI_OK_SELECT) then ereport ERROR (SPI_execute_failed r)
    else
      if 0 <? r then
        match tuptable with
        | Some vals => load_tuples vals
        | None => ret tt
        end
      else ret tt.

Definition add_simula_event (ope_str act_str : string) (sec : Z) : M bool :=
  modify (set_in_simula_event_progress true) ;;
  match lookup_action ActionTable act_str with
  | None => ereport ERROR (invalid_action act_str)
  | Some _ =>
      reply <- SPI_execute (insert_sql ope_str act_str sec) false ;;
      modify (set_in_simula_event_progress false) ;;
      ret (negb (fst reply =? 0))
  end.

Definition clear_all_events : M bool :=
  modify (set_in_simula_event_progress true) ;;
  reply <- SPI_execute truncate_sql false ;;
  modify (set_in_simula_event_progress false) ;;
  ret (negb (fst reply =? 0)).

(** The part the two hooks share word for word. *)
Definition register_callback_if_not_yet : M unit :=
  w <- get ;;
  if negb (registered_to_callback w)
  then modify (set_registered_to_callback true)
  else ret tt.

Definition reload_and_event_if_needed (commandTag : string) : M unit :=
  w <- get ;;
  if needReloadAndEvent commandTag w then
    modify (set_in_simula_event_progress true) ;;
    reloadEventTableData ;;
    doEventIfAny commandTag ;;
    modify (set_in_simula_event_progress false)
  else ret tt.

Definition call_next (point : HookPoint) (installed : bool)
  (commandTag : string) : M Handler :=
  let next := if installed then PrevHook else StandardHandler in
  modify (emit (EvForward point next commandTag)) ;;
  ret next.

Definition pg_simula_planner_body (commandTag : string) : M Handler :=
  register_callback_if_not_yet ;;
  reload_and_event_if_needed commandTag ;;
  w <- get ;;
  call_next Planner (prev_planner w) commandTag.

Definition pg_simula_ProcessUtility_body (commandTag : string) : M Handler :=
  register_callback_if_not_yet ;;
  reload_and_event_if_needed commandTag ;;
  w <- get ;;
  call_next Utility (prev_ProcessUtility w) commandTag.

End Engine.

(** The two hooks.  A hook calls [SPI_execute], which sends the statement
    it runs through the hooks again; [fuel] bounds that nesting.  Two
    levels are all the C code ever uses ([hook_fuel_enough]). *)
Fixpoint hook (host : Host) (fuel : nat) (point : HookPoint)
  (commandTag : string) : M Handler :=
  match fuel with
  | O => fun _ => OutOfFuel
  | S fuel' =>
      match point with
      | Planner => pg_simula_planner_body host (hook host fuel') commandTag
      | Utility => pg_simula_ProcessUtility_body host (hook host fuel') commandTag
      end
  end.

Definition pg_simula_planner (host : Host) (fuel : nat) : string -> M Handler :=
  hook host fuel Planner.

Definition pg_simula_ProcessUtility (host : Host) (fuel : nat)
  : string -> M Handler :=
  hook host fuel Utility.

(** What the backend does with the registered callback when the
    transaction ends. *)
Definition CallXactCallbacks : M unit :=
  w <- get ;;
  if registered_to_callback w then pg_simula_xact_callback else ret tt.

(** ** A reference backend

    The backend reduced to the relation [simula_events] and to the three
    statement forms [pg_simula.c] writes.  String constants are lexed as
    SQL does with [standard_conforming_strings] on: a constant ends at the
    first quote that is not doubled.  Any other text is reported as a
    syntax error; statements outside the three forms are not modelled. *)

Module PgHost.

Inductive Stmt :=
| SelectAll
| Truncate
| Upsert (op act : string) (sec : Z).

Definition SPI_OK_UTILITY : Z := 4.
Definition SPI_OK_INSERT : Z := 7.

Definition is_quote (c : ascii) : bool := byte c =? 39.

Fixpoint strip_prefix (p s : string) : option string :=
  match p with
  | EmptyString => Some s
  | String c p' =>
      match s with
      | EmptyString => None
      | String d s' => if Ascii.eqb c d then strip_prefix p' s' else None
      end
  end.

Definition push (c : ascii) (r : option (string * string))
  : option (string * string) :=
  match r with
  | Some (v, t) => Some (String c v, t)
  | None => None
  end.

(** A string constant after its opening quote: its value and the text
    after its closing quote; [None] when the constant is not closed. *)
Fixpoint lex_constant (s : string) : option (string * string) :=
  match s with
  | EmptyString => None
  | String c r =>
      if is_quote c then
        match r with
        | String c' r' =>
            if is_quote c' then push c (lex_constant r') else Some (EmptyString, r)
        | EmptyString => Some (EmptyString, EmptyString)
        end
      else push c (lex_constant r)
  end.

(** The text up to the first closing parenthesis, and the text after it. *)
Fixpoint until_paren (s : string) : option (string * string) :=
  match s with
  | EmptyString => None
  | String c r =>
      if byte c =? 41 then Some (EmptyString, r) else push c (until_paren r)
  end.

(** An integer constant of type [integer]. *)
Definition lex_integer (s : string) : option Z :=
  match s with
  | EmptyString => None
  | String "-"%char EmptyString => None
  | _ =>
      match NilEmpty.int_of_string s with
      | Some d =>
          let n := Z.of_int d in
          if (- 2 ^ 31 <=? n) && (n <? 2 ^ 31) then Some n else None
      | None => None
      end
  end.

Definition insert_head : string :=
  ("INSERT INTO " ++ EVENT_TABLE_NAME ++ " VALUES('")%string.

Definition insert_tail : string :=
  (" ON CONFLICT ON CONSTRAINT simula_events_pkey "
   ++ "DO UPDATE SET (action, sec) = (excluded.action, excluded.sec)")%string.

Definition parse_insert (src : string) : option Stmt :=
  match strip_prefix insert_head src with
  | None => None
  | Some s1 =>
      match lex_constant s1 with
      | None => None
      | Some (op, s2) =>
          match strip_prefix ", '" s2 with
          | None => None
          | Some s3 =>
              match lex_constant s3 with
              | None => None
              | Some (act, s4) =>
                  match strip_prefix ", " s4 with
                  | None => None
                  | Some s5 =>
                      match until_paren s5 with
                      | None => None
                      | Some (digits, s6) =>
                          match lex_integer digits with
                          | None => None
                          | Some n =>
                              if String.eqb s6 insert_tail
                              then Some (Upsert op act n) else None
                          end
                      end
                  end
              end
          end
      end
  end.

Definition parse (src : string) : option Stmt :=
  if String.eqb src select_sql then Some SelectAll
  else if String.eqb src truncate_sql then Some Truncate
  else parse_insert src.

(** [INSERT ... ON CONFLICT ON CONSTRAINT simula_events_pkey DO UPDATE
    SET (action, sec) = (excluded.action, excluded.sec)] on the rows. *)
Definition has_key (op : string) (r : Row) : bool :=
  String.eqb (row_operation r) op.

Definition upsert (op act : string) (sec : Z) (rows : list Row) : list Row :=
  if existsb (has_key op) rows
  then map (fun r => if has_key op r then mkRow op (Some act) (Some sec) else r) rows
  else (rows ++ [mkRow op (Some act) (Some sec)])%list.

Definition tuple_of_row (r : Row) : Tuple :=
  [Some (row_operation r); row_action r; option_map fmt_d (row_sec r)].

Definition statements (src : string) (d : Db) : list (HookPoint * string) :=
  match parse src, d with
  | Some SelectAll, Some _ => [(Planner, "SELECT")]
  | Some (Upsert _ _ _), Some _ => [(Planner, "INSERT")]
  | Some Truncate, Some _ => [(Utility, "TRUNCATE TABLE")]
  | _, _ => []
  end.

Definition run (src : string) (read_only : bool) (d : Db) : SpiReply :=
  match parse src with
  | None => SpiRaise "syntax error"
  | Some stmt =>
      match d with
      | None => SpiRaise "relation does not exist"
      | Some rows =>
          match stmt with
          | SelectAll => SpiReturn SPI_OK_SELECT (Some (map tuple_of_row rows)) d
          | Truncate => SpiReturn SPI_OK_UTILITY None (Some [])
          | Upsert op act n => SpiReturn SPI_OK_INSERT None (Some (upsert op act n rows))
          end
      end
  end.

Definition pg_host : Host := mkHost statements run.

(** A session in a transaction, with the extension created, the relation
    holding [rows] and the cache holding [cache]. *)
Definition session (enabled : bool) (cache : list SimulaEvent) (rows : list Row)
  : World :=
  mkWorld cache false false false true enabled true true (Some rows) [].

End PgHost.

(** ** Vocabulary of the statements below *)

(** The handler an interception point forwards to. *)
Definition next_handler (point : HookPoint) (w : World) : Handler :=
  match point with
  | Planner => if prev_planner w then PrevHook else StandardHandler
  | Utility => if prev_ProcessUtility w then PrevHook else StandardHandler
  end.

(** The world once the transaction callback has been registered. *)
Definition after_register (w : World) : World :=
  if registered_to_callback w then w else set_registered_to_callback true w.

(** A hook invocation that only registers the callback and forwards. *)
Definition forwarded (point : HookPoint) (tag : string) (w : World) : World :=
  emit (EvForward point (next_handler point w) tag) (after_register w).

(** The statements of an SPI request, each only forwarded. *)
Fixpoint forwarded_all (stmts : list (HookPoint * string)) (w : World) : World :=
  match stmts with
  | [] => w
  | (point, tag) :: rest => forwarded_all rest (forwarded point tag w)
  end.

(** The world in which the backend executes an SPI request issued while
    the guard is set. *)
Definition requested (host : Host) (src : string) (read_only : bool)
  (w : World) : World :=
  forwarded_all (spi_statements host src (db w))
                (emit (EvSPI src read_only true) w).

(** Why the read of the rule relation fails, if it does. *)
Definition read_failure (host : Host) (d : Db) : option Report :=
  match spi_run host select_sql true d with
  | SpiRaise msg => Some (host_error msg)
  | SpiReturn r _ _ =>
      if r =? SPI_OK_SELECT then None else Some (SPI_execute_failed r)
  end.

(** The tuples the read of the rule relation returns. *)
Definition tuples_read (host : Host) (w : World) : list Tuple :=
  if extension_oid_valid w then
    match spi_run host select_sql true (db w) with
    | SpiReturn _ (Some vals) _ => vals
    | _ => []
    end
  else [].

(** A tuple whose first three columns are not NULL, and the rule the
    refresh makes of it. *)
Definition complete (t : Tuple) : Prop :=
  SPI_getvalue t 1 <> None /\ SPI_getvalue t 2 <> None /\ SPI_getvalue t 3 <> None.

Definition text_of (v : option string) : string :=
  match v with
  | Some s => s
  | None => EmptyString
  end.

Definition rule (ope act : string) (s : Z) : SimulaEvent :=
  mkEvent (strncpy ope MAX_LENGTH) (strncpy act MAX_LENGTH) s.

Definition rule_of_tuple (t : Tuple) : SimulaEvent :=
  rule (text_of (SPI_getvalue t 1)) (text_of (SPI_getvalue t 2))
       (atoi (text_of (SPI_getvalue t 3))).

(** A cached rule the dispatcher can act on for a tag: the two tests of
    [doEventIfAny] on it. *)
Definition op_matches (tag : string) (e : SimulaEvent) : bool :=
  pg_strcasecmp (at_operation e) tag =? 0.

Definition registered_action (e : SimulaEvent) : bool :=
  match lookup_action ActionTable (at_action e) with
  | Some _ => true
  | None => false
  end.

Definition dispatchable (tag : string) (e : SimulaEvent) : bool :=
  op_matches tag e && registered_action e.

(** The same in the words of the specification, on the values the rule
    holds rather than on the memory the code reads: the action is the
    name of an entry of the registry up to case, and the operation is the
    tag up to case. *)
Definition recognised (e : SimulaEvent) : Prop :=
  exists a, In a ActionTable /\ same_nocase (act_name a) (action e).

Definition eligible (tag : string) (e : SimulaEvent) : Prop :=
  same_nocase (operation e) tag /\ recognised e.

(** An event that is not a request to the backend, or is a request
    issued with the guard set. *)
Definition guarded_request (e : Event) : Prop :=
  match e with
  | EvSPI _ _ g => g = true
  | _ => True
  end.

(** Texts that hold no quote, and texts that hold no closing
    parenthesis. *)
Fixpoint quote_free (s : string) : bool :=
  match s with
  | EmptyString => true
  | String c r => negb (PgHost.is_quote c) && quote_free r
  end.

Fixpoint paren_free (s : string) : bool :=
  match s with
  | EmptyString => true
  | String c r => negb (byte c =? 41) && paren_free r
  end.

(** The values of [int]. *)
Definition int_range (z : Z) : Prop := - 2 ^ 31 <= z < 2 ^ 31.

(** The rows of the relation respect its primary key. *)
Definition key_unique (rows : list Row) : Prop :=
  NoDup (map row_operation rows).

(** [w'] continues the trace of [w], and every request to the backend
    it adds was issued with the guard set. *)
Definition extends_guarded (w w' : World) : Prop :=
  exists evs, trace w' = (trace w ++ evs)%list /\ Forall guarded_request evs.

(** Worlds of the examples. *)
Definition shadowed_cache : list SimulaEvent :=
  [rule "select" "bogus" 1; rule "SELECT" "wait" 2].

Definition idle : World := PgHost.session true [] [].

Definition shadowed : World := PgHost.session true shadowed_cache [].

Definition unreadable : World := set_db None idle.

Definition disabled : World := PgHost.session false [] [].

Definition long_text : string := string_of_list_ascii (repeat "x"%char 120).

Definition busy : World :=
  set_in_simula_event_progress true
    (PgHost.session true [rule "SELECT" "error" 0]
                    [mkRow "SELECT" (Some "error") (Some 0)]).

Definition stale : World :=
  set_in_simula_event_progress true
    (PgHost.session true [rule "VACUUM" "panic" 0]
                    [mkRow "SELECT" (Some "wait") (Some 2);
                     mkRow long_text (Some "error") (Some 0)]).

(** ** The connection gate and the loading of the module *)

(** [c.h]. *)
Definition STATUS_EOF : Z := -2.

(** How a call of [pg_simula_ClientAuthentication] ends: it returns, it
    ends the process through [proc_exit], or it reports at FATAL under an
    SQLSTATE. *)
Inductive AuthOutcome :=
| auth_returns
| auth_proc_exit (code : Z)
| auth_fatal (sqlstate : string) (msg : string).

Definition ERRCODE_INVALID_AUTHORIZATION_SPECIFICATION : string := "28000".

(** [connection_refused] is the variable behind [pg_simula.connection_refuse]. *)
Definition pg_simula_ClientAuthentication (connection_refused : bool)
  (status : Z) : AuthOutcome :=
  if negb connection_refused then auth_returns
  else if status =? STATUS_EOF then auth_proc_exit 0
  else auth_fatal ERRCODE_INVALID_AUTHORIZATION_SPECIFICATION
                  "authentication failed by pg_simula".

Module Loader.

(** A function a hook variable can point to. *)
Inductive hook_fn :=
| pg_simula_fn
| foreign_fn (id : nat).

(** The three hook variables of the backend and the three [prev_*]
    variables of the file; [None] is the NULL pointer. *)
Record Hooks := mkHooks {
  planner_hook : option hook_fn;
  ProcessUtility_hook : option hook_fn;
  ClientAuthentication_hook : option hook_fn;
  prev_planner : option hook_fn;
  prev_ProcessUtility : option hook_fn;
  prev_ClientAuthentication : option hook_fn
}.

(** The assignments of [_PG_init] after the two [DefineCustomBoolVariable]. *)
Definition _PG_init (h : Hooks) : Hooks :=
  mkHooks (Some pg_simula_fn) (Some pg_simula_fn) (Some pg_simula_fn)
          (planner_hook h) (ProcessUtility_hook h) (ClientAuthentication_hook h).

Definition _PG_fini (h : Hooks) : Hooks :=
  mkHooks (prev_planner h) (prev_ProcessUtility h) (ClientAuthentication_hook h)
          (prev_planner h) (prev_ProcessUtility h) (prev_ClientAuthentication h).

(** Another module hooking in: it saves what it finds and installs its own. *)
Definition foreign_init (id : nat) (h : Hooks) : Hooks :=
  mkHooks (Some (foreign_fn id)) (Some (foreign_fn id)) (Some (foreign_fn id))
          (prev_planner h) (prev_ProcessUtility h) (prev_ClientAuthentication h).

End Loader.

(** ** More vocabulary *)

(** The switches and hook flags no function of the engine assigns. *)
Definition settings (w : World) : bool * bool * bool * bool * bool :=
  (prev_planner w, prev_ProcessUtility w, simulation_enabled w,
   transaction_state w, extension_oid_valid w).

(** A projection of the world that no write to the trace, the relation,
    the cache or the registration flag changes. *)
Definition framed {A : Type} (f : World -> A) : Prop :=
  (forall e w, f (emit e w) = f w) /\
  (forall d w, f (set_db d w) = f w) /\
  (forall l w, f (set_SimulaEvents l w) = f w) /\
  (forall b w, f (set_registered_to_callback b w) = f w).

(** The world in which a hook dispatches, once its refresh has taken the
    tuples [vals] and the backend has left the relation as [db']. *)
Definition refreshed (host : Host) (vals : list Tuple) (db' : Db) (w : World)
  : World :=
  set_SimulaEvents (map rule_of_tuple vals)
    (set_db db'
       (requested host select_sql true
          (set_SimulaEvents []
             (set_in_simula_event_progress true (after_register w))))).

(** A session whose relation holds one rule, not yet read. *)
Definition armed : World :=
  PgHost.session true [] [mkRow "DROP TABLE" (Some "error") (Some 0)].

(** A backend whose [SPI_execute] answers an error code without raising. *)
Definition refusing_host : Host :=
  mkHost (fun _ _ => []) (fun _ _ d => SpiReturn (-6) None d).

(** A session whose relation holds a row with a NULL action. *)
Definition null_action : World :=
  PgHost.session true [] [mkRow "SELECT" None (Some 0)].

(** * Properties *)

(** ** Bytes, folding and [pg_strcasecmp] *)

Lemma byte_range (c : ascii) : 0 <= byte c < 256.
Proof.
  unfold byte.
  pose proof (N_ascii_bounded c) as Hb.
  lia.
Qed.

Lemma byte_inj (c d : ascii) : byte c = byte d -> c = d.
Proof.
  unfold byte; intros H.
  apply N2Z.inj in H.
  rewrite <- (ascii_N_embedding c), <- (ascii_N_embedding d).
  now rewrite H.
Qed.

Lemma fold_case_range (x : Z) : 0 <= x < 256 -> 0 <= fold_case x < 256.
Proof.
  unfold fold_case; intros Hx.
  destruct ((65 <=? x) && (x <=? 90)) eqn:E; [|lia].
  apply andb_true_iff in E as [E1 E2]. lia.
Qed.

Lemma fold_case_zero (x : Z) : 0 <= x -> (fold_case x = 0 <-> x = 0).
Proof.
  unfold fold_case; intros Hx.
  destruct ((65 <=? x) && (x <=? 90)) eqn:E; [|tauto].
  apply andb_true_iff in E as [E1 E2]. lia.
Qed.

Lemma byte_lower (c : ascii) : byte (lower c) = fold_case (byte c).
Proof.
  unfold lower.
  pose proof (fold_case_range (byte c) (byte_range c)) as Hr.
  unfold byte at 1.
  rewrite N_ascii_embedding; [lia|lia].
Qed.

Lemma lower_eq_iff (c d : ascii) :
  lower c = lower d <-> fold_case (byte c) = fold_case (byte d).
Proof.
  split; intros H.
  - now rewrite <- !byte_lower, H.
  - apply byte_inj. now rewrite !byte_lower.
Qed.

Lemma c_str_unfold (s : string) :
  c_str s =
  if byte (peek s) =? 0 then EmptyString
  else String (peek s) (c_str (advance s)).
Proof. destruct s; reflexivity. Qed.

(** The loop of [pg_strcasecmp], one step at a time. *)
Lemma pg_strcasecmp_unfold (s1 s2 : string) :
  pg_strcasecmp s1 s2 =
  let a := fold_case (byte (peek s1)) in
  let b := fold_case (byte (peek s2)) in
  if a =? b
  then if a =? 0 then 0 else pg_strcasecmp (advance s1) (advance s2)
  else a - b.
Proof.
  pose proof (byte_range (peek s1)) as H1.
  pose proof (byte_range (peek s2)) as H2.
  pose proof (fold_case_zero (byte (peek s1)) (proj1 H1)) as Hz.
  cbv zeta.
  destruct s1 as [|c r1]; cbn [pg_strcasecmp peek advance] in *.
  - destruct (byte NUL =? byte (peek s2)) eqn:E; cbn [negb].
    + apply Z.eqb_eq in E. rewrite <- E, Z.eqb_refl. cbn [negb].
      change (byte NUL) with 0. reflexivity.
    + destruct (fold_case (byte NUL) =? fold_case (byte (peek s2))) eqn:F;
        cbn [negb]; [|reflexivity].
      change (fold_case (byte NUL)) with 0. reflexivity.
  - destruct (byte c =? byte (peek s2)) eqn:E; cbn [negb].
    + apply Z.eqb_eq in E. rewrite <- E, !Z.eqb_refl. cbn [negb].
      destruct (byte c =? 0) eqn:Z0.
      * apply Z.eqb_eq in Z0. rewrite Z0. reflexivity.
      * apply Z.eqb_neq in Z0.
        destruct (fold_case (byte c) =? 0) eqn:Z1; [|reflexivity].
        apply Z.eqb_eq in Z1. tauto.
    + destruct (fold_case (byte c) =? fold_case (byte (peek s2))) eqn:F;
        cbn [negb]; reflexivity.
Qed.

(** [pg_strcasecmp] answers 0 exactly on the strings that agree up to the
    case of their letters. *)
Lemma pg_strcasecmp_0_iff (s1 s2 : string) :
  pg_strcasecmp s1 s2 = 0 <-> same_nocase s1 s2.
Proof.
  unfold same_nocase.
  revert s2; induction s1 as [|c r1 IH]; intros s2;
    rewrite pg_strcasecmp_unfold, (c_str_unfold s2); cbv zeta;
    pose proof (byte_range (peek s2)) as H2;
    pose proof (fold_case_zero (byte (peek s2)) (proj1 H2)) as Hz2.
  - cbn [peek advance c_str lower_string].
    change (fold_case (byte NUL)) with 0.
    destruct (0 =? fold_case (byte (peek s2))) eqn:E.
    + apply Z.eqb_eq in E. symmetry in E. apply Hz2 in E.
      rewrite E. cbn. tauto.
    + apply Z.eqb_neq in E.
      destruct (byte (peek s2) =? 0) eqn:Z0.
      * apply Z.eqb_eq in Z0. apply Hz2 in Z0. lia.
      * cbn [lower_string]. split; [lia|discriminate].
  - cbn [peek advance].
    pose proof (byte_range c) as H1.
    pose proof (fold_case_zero (byte c) (proj1 H1)) as Hz1.
    rewrite (c_str_unfold (String c r1)). cbn [peek advance].
    destruct (fold_case (byte c) =? fold_case (byte (peek s2))) eqn:E.
    + apply Z.eqb_eq in E.
      destruct (fold_case (byte c) =? 0) eqn:Z1.
      * apply Z.eqb_eq in Z1.
        assert (byte c = 0) as -> by tauto.
        assert (byte (peek s2) = 0) as -> by (apply Hz2; lia).
        cbn. tauto.
      * apply Z.eqb_neq in Z1.
        assert ((byte c =? 0) = false) as -> by (apply Z.eqb_neq; tauto).
        assert ((byte (peek s2) =? 0) = false) as ->
            by (apply Z.eqb_neq; intros K; apply Hz2 in K; lia).
        cbn [lower_string]. rewrite IH.
        apply lower_eq_iff in E.
        split; [intros ->; now rewrite E | intros K; now inversion K].
    + apply Z.eqb_neq in E.
      split; [lia|]. intros K. exfalso.
      destruct (byte c =? 0) eqn:Z1; destruct (byte (peek s2) =? 0) eqn:Z2;
        cbn [lower_string] in K; try discriminate.
      * apply Z.eqb_eq in Z1, Z2. rewrite Z1, Z2 in E. now apply E.
      * inversion K as [[K1 K2]]. apply lower_eq_iff in K1. now apply E.
Qed.

Lemma pg_strcasecmp_eqb_neg (s1 s2 : string) :
  negb (pg_strcasecmp s1 s2 =? 0) = true <-> ~ same_nocase s1 s2.
Proof.
  rewrite negb_true_iff, Z.eqb_neq. now rewrite pg_strcasecmp_0_iff.
Qed.

Lemma same_nocase_sym (s1 s2 : string) : same_nocase s1 s2 -> same_nocase s2 s1.
Proof. unfold same_nocase. congruence. Qed.

Lemma same_nocase_trans (s1 s2 s3 : string) :
  same_nocase s1 s2 -> same_nocase s2 s3 -> same_nocase s1 s3.
Proof. unfold same_nocase. congruence. Qed.

Lemma lower_string_length (s : string) :
  String.length (lower_string s) = String.length s.
Proof. induction s as [|c r IH]; cbn; congruence. Qed.

Lemma same_nocase_length (s1 s2 : string) :
  same_nocase s1 s2 -> String.length (c_str s1) = String.length (c_str s2).
Proof.
  unfold same_nocase. intros H.
  now rewrite <- (lower_string_length (c_str s1)), H, lower_string_length.
Qed.

(** ** Reads that start in a buffer *)

Lemma c_str_length_step (s : string) :
  fold_case (byte (peek s)) <> 0 ->
  String.length (c_str s) = S (String.length (c_str (advance s))).
Proof.
  intros H. rewrite (c_str_unfold s).
  destruct (byte (peek s) =? 0) eqn:E; [|reflexivity].
  apply Z.eqb_eq in E. rewrite E in H. now contradiction H.
Qed.

(** A comparison in which one of the two strings ends before the [n]th
    byte stops inside a buffer of [n] bytes: what follows the buffer in
    memory plays no part. *)
Lemma pg_strcasecmp_buffer (n : nat) (s rest t : string) :
  (String.length (c_str t) < n)%nat \/ (String.length (c_str s) < n)%nat ->
  pg_strcasecmp (buffer n s ++ rest) t = pg_strcasecmp s t.
Proof.
  revert s t; induction n as [|n IH]; intros s t H; [lia|].
  rewrite (pg_strcasecmp_unfold (buffer (S n) s ++ rest) t),
          (pg_strcasecmp_unfold s t).
  cbn [buffer String.append peek advance]. cbv zeta.
  destruct (fold_case (byte (peek s)) =? fold_case (byte (peek t))) eqn:E;
    [|reflexivity].
  destruct (fold_case (byte (peek s)) =? 0) eqn:Z0; [reflexivity|].
  apply Z.eqb_eq in E. apply Z.eqb_neq in Z0.
  apply IH.
  destruct H as [H|H]; [left|right].
  - rewrite c_str_length_step in H by (rewrite <- E; exact Z0). lia.
  - rewrite c_str_length_step in H by exact Z0. lia.
Qed.

Lemma pg_strcasecmp_buffer_r (n : nat) (s1 s rest : string) :
  (String.length (c_str s1) < n)%nat ->
  pg_strcasecmp s1 (buffer n s ++ rest) = pg_strcasecmp s1 s.
Proof.
  revert s1 s; induction n as [|n IH]; intros s1 s H; [lia|].
  rewrite (pg_strcasecmp_unfold s1 (buffer (S n) s ++ rest)),
          (pg_strcasecmp_unfold s1 s).
  cbn [buffer String.append peek advance]. cbv zeta.
  destruct (fold_case (byte (peek s1)) =? fold_case (byte (peek s))) eqn:E;
    [|reflexivity].
  destruct (fold_case (byte (peek s1)) =? 0) eqn:Z0; [reflexivity|].
  apply Z.eqb_neq in Z0.
  apply IH. rewrite c_str_length_step in H by exact Z0. lia.
Qed.

(** ** The hooks when no refresh-and-dispatch cycle is due *)

Ltac unfold_monad :=
  unfold bind, get, modify, ret, ereport, null_dereference, isPgSimulaLoaded in *.

Lemma needReloadAndEvent_guarded (tag : string) (w : World) :
  in_simula_event_progress w = true -> needReloadAndEvent tag w = false.
Proof.
  unfold needReloadAndEvent; intros ->.
  now rewrite andb_false_r.
Qed.

Lemma needReloadAndEvent_after_register (tag : string) (w : World) :
  needReloadAndEvent tag (after_register w) = needReloadAndEvent tag w.
Proof. unfold after_register; now destruct (registered_to_callback w). Qed.

Lemma register_callback_if_not_yet_run (w : World) :
  register_callback_if_not_yet w = Return tt (after_register w).
Proof.
  unfold register_callback_if_not_yet, after_register; unfold_monad.
  now destruct (registered_to_callback w).
Qed.

Lemma next_handler_after_register (point : HookPoint) (w : World) :
  next_handler point (after_register w) = next_handler point w.
Proof. unfold after_register; now destruct (registered_to_callback w). Qed.

(** When the guard predicate is false a hook registers the callback and
    forwards, and does nothing else. *)
Lemma hook_forwards_only (host : Host) (fuel : nat) (point : HookPoint)
  (tag : string) (w : World) :
  needReloadAndEvent tag w = false ->
  hook host (S fuel) point tag w
  = Return (next_handler point w) (forwarded point tag w).
Proof.
  intros Hn.
  rewrite <- needReloadAndEvent_after_register in Hn.
  unfold forwarded. rewrite <- (next_handler_after_register point w).
  destruct point; cbn [hook];
    unfold pg_simula_planner_body, pg_simula_ProcessUtility_body, bind at 1;
    rewrite register_callback_if_not_yet_run;
    unfold reload_and_event_if_needed, call_next; unfold_monad;
    rewrite Hn; reflexivity.
Qed.

(** C1.  [needReloadAndEvent] answers true exactly when simulation is
    enabled, the reentrancy guard is clear, a transaction is active and
    the tag is neither BEGIN nor START TRANSACTION up to case; and for
    every tag, when simulation is disabled or the tag is one of the two
    boundary commands, either hook only registers the callback and
    forwards: the cache is not refreshed and nothing is dispatched. *)
Theorem needReloadAndEvent_four_conditions (tag : string) (w : World) :
  (needReloadAndEvent tag w = true <->
     simulation_enabled w = true /\
     in_simula_event_progress w = false /\
     transaction_state w = true /\
     ~ same_nocase tag "BEGIN" /\
     ~ same_nocase tag "START TRANSACTION")
  /\
  (forall (host : Host) (fuel : nat) (point : HookPoint),
     simulation_enabled w = false \/
     same_nocase tag "BEGIN" \/ same_nocase tag "START TRANSACTION" ->
     hook host (S fuel) point tag w
     = Return (next_handler point w) (forwarded point tag w)).
Proof.
  assert (Hiff : needReloadAndEvent tag w = true <->
     simulation_enabled w = true /\
     in_simula_event_progress w = false /\
     transaction_state w = true /\
     ~ same_nocase tag "BEGIN" /\
     ~ same_nocase tag "START TRANSACTION").
  { unfold needReloadAndEvent.
    rewrite !andb_true_iff, !pg_strcasecmp_eqb_neg, negb_true_iff.
    tauto. }
  split; [exact Hiff|].
  intros host fuel point Hcase.
  apply hook_forwards_only.
  apply not_true_is_false; intros E.
  apply Hiff in E as (He & _ & _ & Hb & Hs).
  destruct Hcase as [Hd | [Hd | Hd]]; [congruence | tauto | tauto].
Qed.

Lemma needReloadAndEvent_four_conditions_witness :
  (needReloadAndEvent "begin" idle = true <->
     simulation_enabled idle = true /\
     in_simula_event_progress idle = false /\
     transaction_state idle = true /\
     ~ same_nocase "begin" "BEGIN" /\
     ~ same_nocase "begin" "START TRANSACTION")
  /\ hook PgHost.pg_host 1 Utility "begin" idle
     = Return StandardHandler (forwarded Utility "begin" idle).
Proof.
  destruct (needReloadAndEvent_four_conditions "begin" idle) as [H1 H2].
  split; [exact H1|].
  apply (H2 PgHost.pg_host 0%nat Utility).
  right; left. reflexivity.
Defined.

(** ** Requests issued while the guard is set *)

Lemma forwarded_keeps_guard (point : HookPoint) (tag : string) (w : World) :
  in_simula_event_progress (forwarded point tag w) = in_simula_event_progress w.
Proof. unfold forwarded, after_register; now destruct (registered_to_callback w). Qed.

Lemma forwarded_keeps_db (point : HookPoint) (tag : string) (w : World) :
  db (forwarded point tag w) = db w.
Proof. unfold forwarded, after_register; now destruct (registered_to_callback w). Qed.

Lemma forwarded_keeps_cache (point : HookPoint) (tag : string) (w : World) :
  SimulaEvents (forwarded point tag w) = SimulaEvents w.
Proof. unfold forwarded, after_register; now destruct (registered_to_callback w). Qed.

Lemma forwarded_keeps_fired (point : HookPoint) (tag : string) (w : World) :
  fired (forwarded point tag w) = fired w.
Proof.
  unfold fired, forwarded, after_register.
  destruct (registered_to_callback w); cbn [trace emit set_registered_to_callback];
    rewrite filter_app; cbn; now rewrite app_nil_r.
Qed.

Lemma forwarded_all_keeps {A : Type} (f : World -> A) :
  (forall point tag w, f (forwarded point tag w) = f w) ->
  forall stmts w, f (forwarded_all stmts w) = f w.
Proof.
  intros Hf stmts; induction stmts as [|[point tag] rest IH]; intros w.
  - reflexivity.
  - cbn [forwarded_all]. now rewrite IH, Hf.
Qed.

Lemma run_statements_guarded (host : Host) (fuel : nat)
  (stmts : list (HookPoint * string)) (w : World) :
  in_simula_event_progress w = true ->
  run_statements (hook host (S fuel)) stmts w = Return tt (forwarded_all stmts w).
Proof.
  revert w; induction stmts as [|[point tag] rest IH]; intros w Hg.
  - reflexivity.
  - cbn [run_statements forwarded_all]. unfold bind.
    rewrite hook_forwards_only by now apply needReloadAndEvent_guarded.
    apply IH. now rewrite forwarded_keeps_guard.
Qed.

Lemma requested_keeps_guard (host : Host) src read_only (w : World) :
  in_simula_event_progress (requested host src read_only w)
  = in_simula_event_progress w.
Proof.
  unfold requested.
  now rewrite (forwarded_all_keeps _ forwarded_keeps_guard).
Qed.

Lemma requested_keeps_db (host : Host) src read_only (w : World) :
  db (requested host src read_only w) = db w.
Proof.
  unfold requested. now rewrite (forwarded_all_keeps _ forwarded_keeps_db).
Qed.

Lemma requested_keeps_cache (host : Host) src read_only (w : World) :
  SimulaEvents (requested host src read_only w) = SimulaEvents w.
Proof.
  unfold requested. now rewrite (forwarded_all_keeps _ forwarded_keeps_cache).
Qed.

Lemma requested_keeps_fired (host : Host) src read_only (w : World) :
  fired (requested host src read_only w) = fired w.
Proof.
  unfold requested. rewrite (forwarded_all_keeps _ forwarded_keeps_fired).
  unfold fired; cbn [trace emit]. rewrite filter_app; cbn.
  now rewrite app_nil_r.
Qed.

(** [SPI_execute] while the guard is set: the request is noted, its
    statements pass the hooks untouched, the backend answers. *)
Lemma SPI_execute_guarded (host : Host) (fuel : nat) (src : string)
  (read_only : bool) (w : World) :
  in_simula_event_progress w = true ->
  SPI_execute host (hook host (S fuel)) src read_only w
  = match spi_run host src read_only (db w) with
    | SpiReturn code tuptable db' =>
        Return (code, tuptable) (set_db db' (requested host src read_only w))
    | SpiRaise msg => Throw ERROR (host_error msg) (requested host src read_only w)
    end.
Proof.
  intros Hg.
  unfold SPI_execute; unfold_monad. rewrite Hg. cbn [db emit].
  rewrite run_statements_guarded by exact Hg.
  fold (requested host src read_only w).
  rewrite requested_keeps_db.
  now destruct (spi_run host src read_only (db w)).
Qed.

(** ** Dispatch *)

Lemma lookup_action_registered (name : string) (a : Action) :
  lookup_action ActionTable name = Some a ->
  a = mkAction "error" error_func \/ a = mkAction "panic" panic_func \/
  a = mkAction "wait" wait_func \/ a = mkAction "fatal" fatal_func.
Proof.
  unfold ActionTable; cbn [lookup_action act_name].
  repeat match goal with
         | |- context [if ?b then _ else _] => destruct b
         end; intros H; inversion H; tauto.
Qed.

Lemma lookup_action_None_iff (name : string) :
  lookup_action ActionTable name = None <->
  forall a, In a ActionTable -> ~ same_nocase (act_name a) name.
Proof.
  generalize ActionTable as table.
  induction table as [|act rest IH]; cbn [lookup_action In].
  - split; [intros _ a []|reflexivity].
  - destruct (pg_strcasecmp (act_name act) name =? 0) eqn:E.
    + apply Z.eqb_eq, pg_strcasecmp_0_iff in E.
      split; [discriminate|]. intros H. exfalso. now apply (H act); [left|].
    + apply Z.eqb_neq in E. rewrite pg_strcasecmp_0_iff in E.
      rewrite IH. split.
      * intros H a [<-|Ha]; [exact E | now apply H].
      * intros H a Ha. apply H. now right.
Qed.

(** Calling a registered behaviour: it aborts at its level, or it is
    [wait] and returns, having slept or not. *)
Lemma registered_behaviour (name : string) (a : Action) (s : Z) (w : World) :
  lookup_action ActionTable name = Some a ->
  (exists lvl, func a s w = Throw lvl simulation_by_pg_simula w) \/
  func a s w = Return tt w \/
  (exists microsec, func a s w = Return tt (emit (EvSleep microsec) w)).
Proof.
  intros H. apply lookup_action_registered in H.
  destruct H as [-> | [-> | [-> | ->]]]; cbn [func].
  - left. now exists ERROR.
  - left. now exists PANIC.
  - right. unfold wait_func, pg_usleep.
    destruct (0 <? wrap_int (wrap_int (s * 1000) * 1000)).
    + right. eexists. reflexivity.
    + now left.
  - left. now exists FATAL.
Qed.

Lemma fired_emit_fire (name : string) (s : Z) (w : World) :
  fired (emit (EvFire name s) w) = (fired w ++ [EvFire name s])%list.
Proof. unfold fired; cbn [trace emit]. now rewrite filter_app. Qed.

Lemma fired_emit_sleep (microsec : Z) (w : World) :
  fired (emit (EvSleep microsec) w) = fired w.
Proof.
  unfold fired; cbn [trace emit]. rewrite filter_app; cbn.
  now rewrite app_nil_r.
Qed.

Lemma lookup_action_Some (table : list Action) (name : string) (a : Action) :
  lookup_action table name = Some a ->
  In a table /\ same_nocase (act_name a) name.
Proof.
  induction table as [|act rest IH]; cbn [lookup_action In]; [discriminate|].
  destruct (pg_strcasecmp (act_name act) name =? 0) eqn:E.
  - intros [= <-]. apply Z.eqb_eq, pg_strcasecmp_0_iff in E. now split; [left|].
  - intros H. apply IH in H as [H1 H2]. now split; [right|].
Qed.

Lemma registered_name_short (a : Action) :
  In a ActionTable -> (String.length (c_str (act_name a)) <= 5)%nat.
Proof.
  intros [<-|[<-|[<-|[<-|[]]]]]; vm_compute; lia.
Qed.

(** Each name of the registry, in any case, finds its own entry. *)
Lemma lookup_action_own_entry (a : Action) (name : string) :
  In a ActionTable ->
  same_nocase (act_name a) name ->
  lookup_action ActionTable name = Some a.
Proof.
  intros Ha Hs.
  destruct (lookup_action ActionTable name) as [b|] eqn:L.
  - pose proof (lookup_action_registered _ _ L) as Hb.
    apply lookup_action_Some in L as [_ Hbs].
    assert (Hab : same_nocase (act_name a) (act_name b))
      by (apply (same_nocase_trans _ name); [exact Hs | now apply same_nocase_sym]).
    destruct Ha as [<-|[<-|[<-|[<-|[]]]]];
      destruct Hb as [-> | [-> | [-> | ->]]];
      try reflexivity; vm_compute in Hab; discriminate.
  - exfalso. rewrite lookup_action_None_iff in L. now apply (L a).
Qed.

(** The lookup compares with names of at most five bytes: it stops inside
    the buffer it is given, whatever follows it. *)
Lemma lookup_action_buffer (table : list Action) (n : nat) (s rest : string) :
  (forall a, In a table -> (String.length (c_str (act_name a)) < n)%nat) ->
  lookup_action table (buffer n s ++ rest) = lookup_action table s.
Proof.
  induction table as [|act table IH]; intros H; cbn [lookup_action];
    [reflexivity|].
  rewrite pg_strcasecmp_buffer_r by (apply H; now left).
  rewrite IH; [reflexivity|]. intros a Ha. apply H. now right.
Qed.

Lemma lookup_action_at_action (e : SimulaEvent) :
  lookup_action ActionTable (at_action e) = lookup_action ActionTable (action e).
Proof.
  unfold at_action. apply lookup_action_buffer.
  intros a Ha. pose proof (registered_name_short a Ha). unfold MAX_LENGTH. lia.
Qed.

Lemma registered_action_iff (e : SimulaEvent) :
  registered_action e = true <-> recognised e.
Proof.
  unfold registered_action, recognised. rewrite lookup_action_at_action.
  destruct (lookup_action ActionTable (action e)) as [a|] eqn:L.
  - apply lookup_action_Some in L. split; [intros _; now exists a | reflexivity].
  - split; [discriminate|]. intros (a & Ha & Hs).
    rewrite lookup_action_None_iff in L. now destruct (L a Ha).
Qed.

(** For a tag shorter than the buffer the comparison of [doEventIfAny]
    stays inside [operation]: the rule matches exactly when what that
    buffer holds is the tag up to case. *)
Lemma op_matches_iff (tag : string) (e : SimulaEvent) :
  (String.length (c_str tag) < MAX_LENGTH)%nat ->
  (op_matches tag e = true <-> same_nocase (operation e) tag).
Proof.
  intros Ht. unfold op_matches, at_operation.
  rewrite pg_strcasecmp_buffer by now left.
  now rewrite Z.eqb_eq, pg_strcasecmp_0_iff.
Qed.

Lemma dispatchable_iff (tag : string) (e : SimulaEvent) :
  (String.length (c_str tag) < MAX_LENGTH)%nat ->
  (dispatchable tag e = true <-> eligible tag e).
Proof.
  intros Ht. unfold dispatchable, eligible.
  now rewrite andb_true_iff, (op_matches_iff tag e Ht), registered_action_iff.
Qed.

(** The scan of the cache is a search for the first rule that is
    dispatchable for the tag. *)
Lemma doEventIfAny_from_find (cells : list SimulaEvent) (tag : string) (w : World) :
  doEventIfAny_from cells tag w
  = match find (dispatchable tag) cells with
    | Some e =>
        match lookup_action ActionTable (action e) with
        | Some a => func a (sec e) (emit (EvFire (act_name a) (sec e)) w)
        | None => Return tt w
        end
    | None => Return tt w
    end.
Proof.
  induction cells as [|event rest IH]; cbn [doEventIfAny_from find].
  - reflexivity.
  - unfold dispatchable at 1, op_matches, registered_action.
    rewrite lookup_action_at_action.
    destruct (pg_strcasecmp (at_operation event) tag =? 0); cbn [andb].
    + destruct (lookup_action ActionTable (action event)) eqn:L.
      * rewrite L. reflexivity.
      * exact IH.
    + exact IH.
Qed.

(** What the search finds, for a tag shorter than the buffer. *)
Lemma find_dispatchable_none (tag : string) (cells : list SimulaEvent) :
  (String.length (c_str tag) < MAX_LENGTH)%nat ->
  (forall x, In x cells -> ~ eligible tag x) ->
  find (dispatchable tag) cells = None.
Proof.
  intros Ht. induction cells as [|x cells IH]; intros H; cbn [find];
    [reflexivity|].
  destruct (dispatchable tag x) eqn:D.
  - apply (dispatchable_iff tag x Ht) in D. now destruct (H x (or_introl eq_refl)).
  - apply IH. intros y Hy. apply H. now right.
Qed.

Lemma find_dispatchable_first (tag : string) (pre : list SimulaEvent)
  (e : SimulaEvent) (rest : list SimulaEvent) (a : Action) :
  (String.length (c_str tag) < MAX_LENGTH)%nat ->
  (forall x, In x pre -> ~ eligible tag x) ->
  same_nocase (operation e) tag ->
  In a ActionTable ->
  same_nocase (act_name a) (action e) ->
  find (dispatchable tag) (pre ++ e :: rest) = Some e /\
  lookup_action ActionTable (action e) = Some a.
Proof.
  intros Ht Hpre He Ha Hs. split; [|now apply lookup_action_own_entry].
  induction pre as [|x pre IH]; cbn [app find].
  - assert (D : dispatchable tag e = true).
    { apply (dispatchable_iff tag e Ht). split; [exact He | now exists a]. }
    now rewrite D.
  - destruct (dispatchable tag x) eqn:D.
    + apply (dispatchable_iff tag x Ht) in D.
      now destruct (Hpre x (or_introl eq_refl)).
    + apply IH. intros y Hy. apply Hpre. now right.
Qed.

Lemma no_match_not_eligible (tag : string) (cells : list SimulaEvent) :
  (forall x, In x cells -> ~ same_nocase (operation x) tag) ->
  forall x, In x cells -> ~ eligible tag x.
Proof. intros H x Hx [Hm _]. now apply (H x Hx). Qed.

(** A dispatch fires at most once. *)
Lemma doEventIfAny_fires_once (tag : string) (w w' : World) :
  world_of (doEventIfAny tag w) = Some w' ->
  fired w' = fired w \/
  exists name s, fired w' = (fired w ++ [EvFire name s])%list.
Proof.
  unfold doEventIfAny. rewrite doEventIfAny_from_find.
  destruct (find (dispatchable tag) (SimulaEvents w)) as [e|];
    [|intros [= <-]; now left].
  destruct (lookup_action ActionTable (action e)) as [a|] eqn:L;
    [|intros [= <-]; now left].
  destruct (registered_behaviour _ a (sec e)
              (emit (EvFire (act_name a) (sec e)) w) L)
    as [[lvl ->] | [-> | [microsec ->]]]; cbn [world_of]; intros [= <-];
    right; exists (act_name a), (sec e);
    now rewrite ?fired_emit_sleep, fired_emit_fire.
Qed.

(** C3, as stated, fails.  In [shadowed_cache] the first rule whose
    operation matches SELECT is (select, bogus, 1); [bogus] is not in the
    registry, and the dispatcher fires [wait] with parameter 2, the
    behaviour and parameter of the second rule. *)
Lemma doEventIfAny_not_first_match :
  find (op_matches "SELECT") (SimulaEvents shadowed) = Some (rule "select" "bogus" 1)
  /\ lookup_action ActionTable (action (rule "select" "bogus" 1)) = None
  /\ doEventIfAny "SELECT" shadowed
     = Return tt (emit (EvSleep 2000000) (emit (EvFire "wait" 2) shadowed)).
Proof.
  split; [vm_compute; reflexivity|].
  split; vm_compute; reflexivity.
Qed.

(** C3, amended.  For every cache and every command tag (a tag is
    shorter than the buffers of a rule) the dispatcher acts on the first
    rule, in cache order, whose operation is the tag up to case and whose
    action is the name of a registry entry up to case: it fires that
    entry's behaviour with that rule's [sec], whatever stands before or
    after the rule in the cache.  It does nothing when the cache holds no
    such rule, in particular when no rule's operation is the tag.  And
    for every tag, a dispatch fires at most one action. *)
Theorem doEventIfAny_first_dispatchable (tag : string) (w : World) :
  ((String.length (c_str tag) < MAX_LENGTH)%nat ->
   (forall pre e rest a,
      SimulaEvents w = (pre ++ e :: rest)%list ->
      (forall x, In x pre -> ~ eligible tag x) ->
      same_nocase (operation e) tag ->
      In a ActionTable ->
      same_nocase (act_name a) (action e) ->
      doEventIfAny tag w
      = func a (sec e) (emit (EvFire (act_name a) (sec e)) w))
   /\ ((forall x, In x (SimulaEvents w) -> ~ eligible tag x) ->
       doEventIfAny tag w = Return tt w)
   /\ ((forall e, In e (SimulaEvents w) -> ~ same_nocase (operation e) tag) ->
       doEventIfAny tag w = Return tt w))
  /\ (forall w', world_of (doEventIfAny tag w) = Some w' ->
      fired w' = fired w \/
      exists name s, fired w' = (fired w ++ [EvFire name s])%list).
Proof.
  split; [|intros w'; apply doEventIfAny_fires_once].
  intros Ht. unfold doEventIfAny. rewrite doEventIfAny_from_find.
  split; [|split].
  - intros pre e rest a Hc Hpre He Ha Hs. rewrite Hc.
    destruct (find_dispatchable_first tag pre e rest a Ht Hpre He Ha Hs)
      as [-> ->].
    reflexivity.
  - intros H. now rewrite (find_dispatchable_none tag _ Ht H).
  - intros H.
    now rewrite (find_dispatchable_none tag _ Ht (no_match_not_eligible tag _ H)).
Qed.

Lemma doEventIfAny_first_dispatchable_witness :
  (String.length (c_str "SELECT") < MAX_LENGTH)%nat /\
  SimulaEvents shadowed
  = ([rule "select" "bogus" 1] ++ rule "SELECT" "wait" 2 :: [])%list /\
  doEventIfAny "SELECT" shadowed
  = wait_func 2 (emit (EvFire "wait" 2) shadowed).
Proof.
  assert (Ht : (String.length (c_str "SELECT") < MAX_LENGTH)%nat)
    by (vm_compute; lia).
  split; [exact Ht|]. split; [reflexivity|].
  apply (proj1 (proj1 (doEventIfAny_first_dispatchable "SELECT" shadowed) Ht)
           [rule "select" "bogus" 1] (rule "SELECT" "wait" 2) []
           (mkAction "wait" wait_func)).
  - reflexivity.
  - intros x [<-|[]] (_ & a & Ha & Hs).
    destruct Ha as [<-|[<-|[<-|[<-|[]]]]]; vm_compute in Hs; discriminate.
  - reflexivity.
  - right; right; left. reflexivity.
  - reflexivity.
Defined.

(** C10.  For a command tag, when the first cached rule whose operation
    is the tag up to case names an action that is in no registry entry,
    the dispatcher fires nothing for it and raises nothing: it goes on as
    if the cache began after that rule.  So the first later rule whose
    operation is the tag and whose action is a registry name is the one
    acted on, with its own [sec]; and when no later rule is such, the
    call is a no-op. *)
Theorem doEventIfAny_ignores_unregistered_action
  (pre : list SimulaEvent) (e : SimulaEvent) (rest : list SimulaEvent)
  (tag : string) (w : World) :
  (String.length (c_str tag) < MAX_LENGTH)%nat ->
  SimulaEvents w = (pre ++ e :: rest)%list ->
  (forall x, In x pre -> ~ same_nocase (operation x) tag) ->
  same_nocase (operation e) tag ->
  (forall a, In a ActionTable -> ~ same_nocase (act_name a) (action e)) ->
  doEventIfAny tag w = doEventIfAny_from rest tag w
  /\ (forall mid e' rest' a',
        rest = (mid ++ e' :: rest')%list ->
        (forall x, In x mid -> ~ eligible tag x) ->
        same_nocase (operation e') tag ->
        In a' ActionTable ->
        same_nocase (act_name a') (action e') ->
        doEventIfAny tag w
        = func a' (sec e') (emit (EvFire (act_name a') (sec e')) w))
  /\ ((forall x, In x rest -> ~ eligible tag x) ->
      doEventIfAny tag w = Return tt w).
Proof.
  intros Ht Hc Hpre _ Hno.
  assert (Hhead : forall x, In x (pre ++ [e])%list -> ~ eligible tag x).
  { intros x Hx. apply in_app_or in Hx as [Hx|[<-|[]]].
    - now apply (no_match_not_eligible tag pre Hpre).
    - intros (_ & a & Ha & Hs). now apply (Hno a Ha). }
  assert (Hskip : doEventIfAny tag w = doEventIfAny_from rest tag w).
  { unfold doEventIfAny. rewrite Hc, !doEventIfAny_from_find.
    replace (pre ++ e :: rest)%list with ((pre ++ [e]) ++ rest)%list
      by now rewrite <- app_assoc.
    clear Hc. induction (pre ++ [e])%list as [|x l IH]; cbn [app find];
      [reflexivity|].
    destruct (dispatchable tag x) eqn:D.
    - apply (dispatchable_iff tag x Ht) in D.
      now destruct (Hhead x (or_introl eq_refl)).
    - apply IH. intros y Hy. apply Hhead. now right. }
  rewrite Hskip, doEventIfAny_from_find.
  split; [reflexivity|]. split.
  - intros mid e' rest' a' -> Hmid He' Ha' Hs'.
    destruct (find_dispatchable_first tag mid e' rest' a' Ht Hmid He' Ha' Hs')
      as [-> ->].
    reflexivity.
  - intros H. now rewrite (find_dispatchable_none tag _ Ht H).
Qed.

Lemma doEventIfAny_ignores_unregistered_action_witness :
  doEventIfAny "SELECT" shadowed
  = doEventIfAny_from [rule "SELECT" "wait" 2] "SELECT" shadowed
  /\ doEventIfAny "SELECT" shadowed
     = wait_func 2 (emit (EvFire "wait" 2) shadowed).
Proof.
  destruct (doEventIfAny_ignores_unregistered_action
              [] (rule "select" "bogus" 1) [rule "SELECT" "wait" 2]
              "SELECT" shadowed) as (H1 & H2 & _).
  - vm_compute. lia.
  - reflexivity.
  - intros x [].
  - reflexivity.
  - intros a [<-|[<-|[<-|[<-|[]]]]]; vm_compute; discriminate.
  - split; [exact H1|].
    apply (H2 [] (rule "SELECT" "wait" 2) [] (mkAction "wait" wait_func)).
    + reflexivity.
    + intros x [].
    + reflexivity.
    + right; right; left. reflexivity.
    + reflexivity.
Defined.

(** ** Refresh *)

Lemma strncpy_length (s : string) (n : nat) : String.length (strncpy s n) = n.
Proof.
  revert s; induction n as [|n IH]; intros s; cbn [strncpy].
  - reflexivity.
  - destruct s as [|c r]; [|destruct (byte c =? 0)]; cbn [String.length];
      now rewrite IH.
Qed.

(** Read back as a C string, the buffer [strncpy] fills holds the first
    [n] bytes of the source and no more. *)
Lemma strncpy_truncates (s : string) (n : nat) :
  c_str (strncpy s n) = take n (c_str s).
Proof.
  revert s; induction n as [|n IH]; intros s; cbn [strncpy].
  - now destruct (c_str s).
  - destruct s as [|c r]; cbn [c_str take].
    + reflexivity.
    + destruct (byte c =? 0) eqn:E; cbn [c_str take].
      * reflexivity.
      * rewrite E. now rewrite IH.
Qed.

Lemma take_length_le (n : nat) (s : string) : (String.length (take n s) <= n)%nat.
Proof.
  revert s; induction n as [|n IH]; intros [|c r]; cbn [take String.length];
    try lia.
  specialize (IH r). lia.
Qed.

Lemma complete_values (t : Tuple) :
  complete t ->
  exists ope act s,
    SPI_getvalue t 1 = Some ope /\ SPI_getvalue t 2 = Some act /\
    SPI_getvalue t 3 = Some s.
Proof.
  intros (H1 & H2 & H3).
  destruct (SPI_getvalue t 1) as [ope|]; [|congruence].
  destruct (SPI_getvalue t 2) as [act|]; [|congruence].
  destruct (SPI_getvalue t 3) as [s|]; [|congruence].
  now exists ope, act, s.
Qed.

Lemma load_tuples_complete (vals : list Tuple) (w : World) :
  Forall complete vals ->
  load_tuples vals w
  = Return tt (set_SimulaEvents (SimulaEvents w ++ map rule_of_tuple vals) w).
Proof.
  intros H; revert w; induction H as [|t rest Ht _ IH]; intros w;
    cbn [load_tuples map].
  - rewrite app_nil_r. now destruct w.
  - destruct (complete_values t Ht) as (ope & act & s & E1 & E2 & E3).
    unfold rule_of_tuple. rewrite E1, E2, E3. cbn [text_of].
    unfold bind, modify. rewrite IH.
    cbn [SimulaEvents set_SimulaEvents]. rewrite <- app_assoc. reflexivity.
Qed.

Lemma load_tuples_returns (vals : list Tuple) (w w' : World) :
  load_tuples vals w = Return tt w' -> Forall complete vals.
Proof.
  revert w; induction vals as [|t rest IH]; intros w; cbn [load_tuples].
  - constructor.
  - destruct (SPI_getvalue t 1) as [ope|] eqn:E1; [|discriminate].
    destruct (SPI_getvalue t 2) as [act|] eqn:E2; [|discriminate].
    destruct (SPI_getvalue t 3) as [s|] eqn:E3; [|discriminate].
    unfold bind, modify. intros H. constructor.
    + unfold complete. rewrite E1, E2, E3. repeat split; discriminate.
    + now apply IH in H.
Qed.

(** The loop over the tuples returns, or stops at a NULL column. *)
Lemma load_tuples_outcome (vals : list Tuple) (w : World) :
  load_tuples vals w
  = Return tt (set_SimulaEvents (SimulaEvents w ++ map rule_of_tuple vals) w)
  \/ exists w', load_tuples vals w = Crash w' /\ trace w' = trace w.
Proof.
  revert w; induction vals as [|t rest IH]; intros w; cbn [load_tuples map].
  - left. rewrite app_nil_r. now destruct w.
  - unfold rule_of_tuple.
    destruct (SPI_getvalue t 1) as [ope|];
      [|right; exists w; now split].
    destruct (SPI_getvalue t 2) as [act|];
      [|right; exists w; now split].
    destruct (SPI_getvalue t 3) as [s|];
      [|right; exists w; now split].
    cbn [text_of]. unfold bind, modify.
    destruct (IH (set_SimulaEvents
                    (SimulaEvents w ++ [mkEvent (strncpy ope MAX_LENGTH)
                                                (strncpy act MAX_LENGTH) (atoi s)]) w))
      as [-> | (w' & -> & Ht)].
    + left. cbn [SimulaEvents set_SimulaEvents]. now rewrite <- app_assoc.
    + right. exists w'. now split.
Qed.

(** The refresh as its callers run it, with the guard set. *)
Lemma reloadEventTableData_guarded (host : Host) (fuel : nat) (w : World) :
  in_simula_event_progress w = true ->
  reloadEventTableData host (hook host (S fuel)) w
  = if negb (extension_oid_valid w) then Return tt (set_SimulaEvents [] w)
    else
      let w1 := requested host select_sql true (set_SimulaEvents [] w) in
      match spi_run host select_sql true (db w) with
      | SpiRaise msg => Throw ERROR (host_error msg) w1
      | SpiReturn r tuptable db' =>
          if negb (r =? SPI_OK_SELECT)
          then Throw ERROR (SPI_execute_failed r) (set_db db' w1)
          else if 0 <? r then
                 match tuptable with
                 | Some vals => load_tuples vals (set_db db' w1)
                 | None => Return tt (set_db db' w1)
                 end
               else Return tt (set_db db' w1)
      end.
Proof.
  intros Hg.
  unfold reloadEventTableData, bind at 1, modify at 1.
  unfold bind at 1, isPgSimulaLoaded. cbn [extension_oid_valid set_SimulaEvents].
  destruct (extension_oid_valid w); cbn [negb]; [|reflexivity].
  unfold bind at 1. rewrite SPI_execute_guarded by exact Hg.
  cbn [db set_SimulaEvents].
  destruct (spi_run host select_sql true (db w)) as [r tuptable db'|msg];
    [|reflexivity].
  destruct (r =? SPI_OK_SELECT); cbn [negb]; [|reflexivity].
  destruct (0 <? r); [|reflexivity].
  now destruct tuptable.
Qed.

(** C5.  A refresh that returns has replaced the cache by one rule for
    each tuple the read returned, in the order read, whatever the cache
    held before; every tuple whose three columns are present is taken,
    however long its values; and each rule holds its operation and its
    action cut to [MAX_LENGTH] = 100 bytes. *)
Theorem reloadEventTableData_replaces_cache (host : Host) (fuel : nat) (w : World) :
  in_simula_event_progress w = true ->
  (forall w', reloadEventTableData host (hook host (S fuel)) w = Return tt w' ->
     SimulaEvents w' = map rule_of_tuple (tuples_read host w))
  /\
  (forall vals db',
     extension_oid_valid w = true ->
     spi_run host select_sql true (db w) = SpiReturn SPI_OK_SELECT (Some vals) db' ->
     Forall complete vals ->
     exists w', reloadEventTableData host (hook host (S fuel)) w = Return tt w' /\
                SimulaEvents w' = map rule_of_tuple vals)
  /\
  (forall t,
     c_str (operation (rule_of_tuple t))
       = take 100 (c_str (text_of (SPI_getvalue t 1))) /\
     c_str (action (rule_of_tuple t))
       = take 100 (c_str (text_of (SPI_getvalue t 2))) /\
     (String.length (c_str (operation (rule_of_tuple t))) <= 100)%nat /\
     (String.length (c_str (action (rule_of_tuple t))) <= 100)%nat /\
     String.length (operation (rule_of_tuple t)) = 100%nat /\
     String.length (action (rule_of_tuple t)) = 100%nat).
Proof.
  intros Hg.
  rewrite (reloadEventTableData_guarded host fuel w Hg).
  unfold tuples_read.
  split; [|split].
  - intros w'.
    destruct (extension_oid_valid w); cbn [negb].
    + cbv zeta.
      destruct (spi_run host select_sql true (db w)) as [r tuptable db'|msg];
        [|discriminate].
      destruct (r =? SPI_OK_SELECT) eqn:Er; cbn [negb]; [|discriminate].
      apply Z.eqb_eq in Er; subst r.
      change (0 <? SPI_OK_SELECT) with true. cbv iota.
      destruct tuptable as [vals|].
      * intros H. pose proof (load_tuples_returns _ _ _ H) as Hc.
        rewrite (load_tuples_complete _ _ Hc) in H.
        injection H as <-.
        cbn [SimulaEvents set_SimulaEvents set_db].
        now rewrite requested_keeps_cache.
      * intros [= <-]. cbn [SimulaEvents set_db].
        now rewrite requested_keeps_cache.
    + intros [= <-]. reflexivity.
  - intros vals db' -> -> Hc. cbn [negb]. cbv zeta.
    change (SPI_OK_SELECT =? SPI_OK_SELECT) with true.
    change (0 <? SPI_OK_SELECT) with true. cbn [negb].
    rewrite (load_tuples_complete _ _ Hc).
    eexists; split; [reflexivity|].
    cbn [SimulaEvents set_SimulaEvents set_db].
    now rewrite requested_keeps_cache.
  - intros t. unfold rule_of_tuple, rule; cbn [operation action].
    rewrite !strncpy_truncates, !strncpy_length.
    repeat split; apply take_length_le.
Qed.

Lemma reloadEventTableData_replaces_cache_witness :
  exists w',
    reloadEventTableData PgHost.pg_host (hook PgHost.pg_host 1) stale = Return tt w' /\
    SimulaEvents w'
    = map rule_of_tuple [[Some "SELECT"; Some "wait"; Some "2"];
                         [Some long_text; Some "error"; Some "0"]].
Proof.
  apply (proj1 (proj2 (reloadEventTableData_replaces_cache
                         PgHost.pg_host 0 stale eq_refl))
           [[Some "SELECT"; Some "wait"; Some "2"];
            [Some long_text; Some "error"; Some "0"]]
           (Some [mkRow "SELECT" (Some "wait") (Some 2);
                  mkRow long_text (Some "error") (Some 0)])).
  - reflexivity.
  - vm_compute. reflexivity.
  - repeat constructor; discriminate.
Defined.

(** The refresh when the extension is not created in the database. *)
Lemma reloadEventTableData_not_loaded (host : Host)
  (nested : HookPoint -> string -> M Handler) (w : World) :
  extension_oid_valid w = false ->
  reloadEventTableData host nested w = Return tt (set_SimulaEvents [] w).
Proof.
  intros He.
  unfold reloadEventTableData, bind at 1, modify at 1.
  unfold bind at 1, isPgSimulaLoaded. cbn [extension_oid_valid set_SimulaEvents].
  now rewrite He.
Qed.

Lemma reloadEventTableData_read_failure (host : Host) (fuel : nat) (w : World)
  (rep : Report) :
  in_simula_event_progress w = true ->
  extension_oid_valid w = true ->
  read_failure host (db w) = Some rep ->
  exists w',
    reloadEventTableData host (hook host (S fuel)) w = Throw ERROR rep w' /\
    SimulaEvents w' = [] /\ fired w' = fired w.
Proof.
  intros Hg He Hf.
  rewrite (reloadEventTableData_guarded host fuel w Hg), He. cbn [negb]. cbv zeta.
  unfold read_failure in Hf.
  destruct (spi_run host select_sql true (db w)) as [r tuptable db'|msg].
  - destruct (r =? SPI_OK_SELECT); [discriminate|]. injection Hf as <-.
    cbn [negb]. eexists; split; [reflexivity|].
    cbn [SimulaEvents set_db]. rewrite requested_keeps_cache.
    split; [reflexivity|].
    unfold fired at 1; cbn [trace set_db].
    fold (fired (requested host select_sql true (set_SimulaEvents [] w))).
    now rewrite requested_keeps_fired.
  - injection Hf as <-. eexists; split; [reflexivity|].
    rewrite requested_keeps_cache, requested_keeps_fired. now split.
Qed.

(** A hook whose guard predicate holds: the cycle, then the forward. *)
Lemma hook_cycle (host : Host) (fuel : nat) (point : HookPoint) (tag : string)
  (w : World) :
  needReloadAndEvent tag w = true ->
  hook host (S (S fuel)) point tag w
  = match reloadEventTableData host (hook host (S fuel))
            (set_in_simula_event_progress true (after_register w)) with
    | Return _ w2 =>
        match doEventIfAny tag w2 with
        | Return _ w3 =>
            Return (next_handler point w3)
                   (emit (EvForward point (next_handler point w3) tag)
                         (set_in_simula_event_progress false w3))
        | Throw lvl r w3 => Throw lvl r w3
        | Crash w3 => Crash w3
        | OutOfFuel => OutOfFuel
        end
    | Throw lvl r w2 => Throw lvl r w2
    | Crash w2 => Crash w2
    | OutOfFuel => OutOfFuel
    end.
Proof.
  intros Hn. rewrite <- needReloadAndEvent_after_register in Hn.
  destruct point; cbn [hook];
    unfold pg_simula_planner_body, pg_simula_ProcessUtility_body, bind at 1;
    rewrite register_callback_if_not_yet_run;
    unfold reload_and_event_if_needed, bind at 1, bind at 1, get at 1;
    rewrite Hn; unfold bind at 1, bind at 1, modify at 1;
    (destruct (reloadEventTableData host _ _) as [[] w2|lvl r w2|w2|];
     [|reflexivity|reflexivity|reflexivity]);
    unfold bind at 1;
    (destruct (doEventIfAny tag w2) as [[] w3|lvl r w3|w3|];
     [|reflexivity|reflexivity|reflexivity]);
    reflexivity.
Qed.

Lemma forwarded_keeps_next (q : HookPoint) (point : HookPoint) (tag : string)
  (w : World) :
  next_handler q (forwarded point tag w) = next_handler q w.
Proof.
  unfold forwarded, after_register.
  now destruct (registered_to_callback w), q.
Qed.

Lemma requested_keeps_next (q : HookPoint) (host : Host) src read_only (w : World) :
  next_handler q (requested host src read_only w) = next_handler q w.
Proof.
  unfold requested.
  rewrite (forwarded_all_keeps (next_handler q) (forwarded_keeps_next q)).
  now destruct q.
Qed.

Lemma fired_set_db (d : Db) (w : World) : fired (set_db d w) = fired w.
Proof. reflexivity. Qed.

Lemma fired_set_SimulaEvents (l : list SimulaEvent) (w : World) :
  fired (set_SimulaEvents l w) = fired w.
Proof. reflexivity. Qed.

Lemma fired_after_register (w : World) : fired (after_register w) = fired w.
Proof. unfold after_register; now destruct (registered_to_callback w). Qed.

Lemma db_after_register (w : World) : db (after_register w) = db w.
Proof. unfold after_register; now destruct (registered_to_callback w). Qed.

Lemma extension_after_register (w : World) :
  extension_oid_valid (after_register w) = extension_oid_valid w.
Proof. unfold after_register; now destruct (registered_to_callback w). Qed.

(** What a refresh under the guard leaves untouched when it returns, and
    why it raises when it raises. *)
Lemma reloadEventTableData_frame (host : Host) (fuel : nat) (w : World) :
  in_simula_event_progress w = true ->
  match reloadEventTableData host (hook host (S fuel)) w with
  | Return _ w' =>
      (forall q, next_handler q w' = next_handler q w) /\ fired w' = fired w
  | Throw lvl rep w' =>
      lvl = ERROR /\ read_failure host (db w) = Some rep /\
      SimulaEvents w' = [] /\ fired w' = fired w
  | Crash _ => True
  | OutOfFuel => False
  end.
Proof.
  intros Hg.
  rewrite (reloadEventTableData_guarded host fuel w Hg). unfold read_failure.
  destruct (extension_oid_valid w); cbn [negb]; cbv zeta.
  - destruct (spi_run host select_sql true (db w)) as [r tuptable db'|msg].
    + destruct (r =? SPI_OK_SELECT); cbn [negb].
      * assert (Hret :
          (forall q, next_handler q
             (set_db db' (requested host select_sql true (set_SimulaEvents [] w)))
           = next_handler q w) /\
          fired (set_db db' (requested host select_sql true (set_SimulaEvents [] w)))
          = fired w).
        { split.
          - intros q.
            transitivity (next_handler q
              (requested host select_sql true (set_SimulaEvents [] w)));
              [now destruct q|].
            rewrite requested_keeps_next. now destruct q.
          - rewrite fired_set_db. now rewrite requested_keeps_fired. }
        destruct (0 <? r); [|exact Hret].
        destruct tuptable as [vals|]; [|exact Hret].
        destruct (load_tuples_outcome vals (set_db db'
                    (requested host select_sql true (set_SimulaEvents [] w))))
          as [-> | (w' & -> & _)]; [|exact I].
        destruct Hret as [H1 H2]. split.
        -- intros q. rewrite <- H1. now destruct q.
        -- rewrite fired_set_SimulaEvents. exact H2.
      * repeat split.
        -- cbn [SimulaEvents set_db]. now rewrite requested_keeps_cache.
        -- rewrite fired_set_db. now rewrite requested_keeps_fired.
    + repeat split.
      * now rewrite requested_keeps_cache.
      * now rewrite requested_keeps_fired.
  - split; [intros q; now destruct q | reflexivity].
Qed.

(** What a dispatch leaves untouched when it returns, and what it has
    done when it raises. *)
Lemma doEventIfAny_frame (tag : string) (w : World) :
  match doEventIfAny tag w with
  | Return _ w' =>
      (forall q, next_handler q w' = next_handler q w) /\
      SimulaEvents w' = SimulaEvents w /\
      in_simula_event_progress w' = in_simula_event_progress w
  | Throw lvl rep w' =>
      rep = simulation_by_pg_simula /\
      exists name s, fired w' = (fired w ++ [EvFire name s])%list
  | Crash _ => False
  | OutOfFuel => False
  end.
Proof.
  unfold doEventIfAny. rewrite doEventIfAny_from_find.
  destruct (find (dispatchable tag) (SimulaEvents w)) as [e|];
    [|split; [intros q; now destruct q | split; reflexivity]].
  destruct (lookup_action ActionTable (action e)) as [a|] eqn:L;
    [|split; [intros q; now destruct q | split; reflexivity]].
  destruct (registered_behaviour _ a (sec e)
              (emit (EvFire (act_name a) (sec e)) w) L)
    as [[lvl ->] | [-> | [microsec ->]]].
  - split; [reflexivity|]. exists (act_name a), (sec e).
    apply fired_emit_fire.
  - split; [intros q; now destruct q | split; reflexivity].
  - split; [intros q; now destruct q | split; reflexivity].
Qed.

(** C6.  When the extension is not created in the current database the
    refresh empties the cache and returns without a request to the
    backend.  When it is created and the read of the rule relation fails
    (the backend raises, or [SPI_execute] answers another code than
    [SPI_OK_SELECT]) the refresh leaves by an ERROR, and so does the hook
    that ran it: the intercepted statement is not forwarded, no action is
    fired, and the cache holds no rule. *)
Theorem reloadEventTableData_absent_or_failed (host : Host) (w : World) :
  (forall nested,
     extension_oid_valid w = false ->
     reloadEventTableData host nested w = Return tt (set_SimulaEvents [] w) /\
     SimulaEvents (set_SimulaEvents [] w) = [] /\
     queries (set_SimulaEvents [] w) = queries w)
  /\
  (forall fuel rep,
     in_simula_event_progress w = true ->
     extension_oid_valid w = true ->
     read_failure host (db w) = Some rep ->
     exists w',
       reloadEventTableData host (hook host (S fuel)) w = Throw ERROR rep w' /\
       SimulaEvents w' = [])
  /\
  (forall fuel point tag rep,
     needReloadAndEvent tag w = true ->
     extension_oid_valid w = true ->
     read_failure host (db w) = Some rep ->
     exists w',
       hook host (S (S fuel)) point tag w = Throw ERROR rep w' /\
       SimulaEvents w' = [] /\ fired w' = fired w).
Proof.
  split; [|split].
  - intros nested He. repeat split.
    now apply reloadEventTableData_not_loaded.
  - intros fuel rep Hg He Hf.
    destruct (reloadEventTableData_read_failure host fuel w rep Hg He Hf)
      as (w' & H1 & H2 & _).
    now exists w'.
  - intros fuel point tag rep Hn He Hf.
    rewrite (hook_cycle host fuel point tag w Hn).
    destruct (reloadEventTableData_read_failure host fuel
                (set_in_simula_event_progress true (after_register w)) rep)
      as (w' & H1 & H2 & H3).
    + reflexivity.
    + cbn [extension_oid_valid set_in_simula_event_progress].
      now rewrite extension_after_register.
    + cbn [db set_in_simula_event_progress]. now rewrite db_after_register.
    + rewrite H1. exists w'. repeat split; [exact H2|].
      rewrite H3. unfold fired at 1. cbn [trace set_in_simula_event_progress].
      apply fired_after_register.
Qed.

Lemma reloadEventTableData_absent_or_failed_witness :
  needReloadAndEvent "SELECT" unreadable = true /\
  exists w',
    hook PgHost.pg_host 2 Planner "SELECT" unreadable
    = Throw ERROR (host_error "relation does not exist") w' /\
    SimulaEvents w' = [] /\ fired w' = fired unreadable.
Proof.
  split; [reflexivity|].
  apply (proj2 (proj2 (reloadEventTableData_absent_or_failed
                         PgHost.pg_host unreadable))
           0%nat Planner "SELECT" (host_error "relation does not exist")).
  - reflexivity.
  - reflexivity.
  - vm_compute. reflexivity.
Defined.

(** A refresh under the guard is lost to a NULL pointer only on a tuple
    that lacks one of its three columns, after a read that succeeded. *)
Lemma reloadEventTableData_crash (host : Host) (fuel : nat) (w w' : World) :
  in_simula_event_progress w = true ->
  reloadEventTableData host (hook host (S fuel)) w = Crash w' ->
  extension_oid_valid w = true /\ read_failure host (db w) = None /\
  ~ Forall complete (tuples_read host w) /\ fired w' = fired w.
Proof.
  intros Hg. rewrite (reloadEventTableData_guarded host fuel w Hg).
  unfold read_failure, tuples_read.
  destruct (extension_oid_valid w); cbn [negb]; cbv zeta; [|discriminate].
  destruct (spi_run host select_sql true (db w)) as [r tuptable db'|msg];
    [|discriminate].
  destruct (r =? SPI_OK_SELECT); cbn [negb]; [|discriminate].
  destruct (0 <? r); [|discriminate].
  destruct tuptable as [vals|]; [|discriminate].
  intros H. split; [reflexivity|]. split; [reflexivity|]. split.
  - intros Hc. rewrite (load_tuples_complete _ _ Hc) in H. discriminate.
  - destruct (load_tuples_outcome vals (set_db db'
                (requested host select_sql true (set_SimulaEvents [] w))))
      as [E | (w2 & E & Ht)]; rewrite E in H; [discriminate|].
    injection H as <-. unfold fired at 1. rewrite Ht. cbn [trace set_db].
    fold (fired (requested host select_sql true (set_SimulaEvents [] w))).
    now rewrite requested_keeps_fired.
Qed.

(** C7, as stated, fails: a hook whose refresh cannot read the rule
    relation leaves by an ERROR before it forwards, and no action was
    invoked.  Here the relation does not exist. *)
Lemma hook_not_forwarded_on_read_failure :
  pg_simula_planner PgHost.pg_host 2 "SELECT" unreadable
  = Throw ERROR (host_error "relation does not exist")
      (emit (EvSPI select_sql true true)
            (set_in_simula_event_progress true unreadable))
  /\ fired (emit (EvSPI select_sql true true)
                 (set_in_simula_event_progress true unreadable)) = [].
Proof. split; vm_compute; reflexivity. Qed.

(** C7, amended.  Either hook forwards to the previous hook when one is
    installed and to the standard handler otherwise, which it always does
    when the guard predicate is false.  When the predicate holds and no
    tuple read lacks one of its three columns, the hook forwards in the
    same way or leaves by an error, and an error is either the ERROR of
    the refresh whose read of the rule relation failed, with nothing
    fired, or the abort of the one action the hook invoked.  The backend
    process is lost inside a hook only on a tuple read with a NULL among
    its three columns.  A hook needs no more than two levels of nesting
    to do so. *)
Theorem hook_forwards_unless_aborted (host : Host) (fuel : nat)
  (point : HookPoint) (tag : string) (w : World) :
  (needReloadAndEvent tag w = false ->
   hook host (S (S fuel)) point tag w
   = Return (next_handler point w) (forwarded point tag w))
  /\
  (forall next w',
     hook host (S (S fuel)) point tag w = Return next w' ->
     next = next_handler point w /\
     exists before, trace w' = (before ++ [EvForward point next tag])%list)
  /\
  (forall lvl rep w',
     hook host (S (S fuel)) point tag w = Throw lvl rep w' ->
     needReloadAndEvent tag w = true /\
     ((lvl = ERROR /\ read_failure host (db w) = Some rep /\ fired w' = fired w)
      \/
      (rep = simulation_by_pg_simula /\
       exists name s, fired w' = (fired w ++ [EvFire name s])%list)))
  /\
  hook host (S (S fuel)) point tag w <> OutOfFuel
  /\
  (forall w',
     hook host (S (S fuel)) point tag w = Crash w' ->
     needReloadAndEvent tag w = true /\ extension_oid_valid w = true /\
     read_failure host (db w) = None /\
     ~ Forall complete (tuples_read host w) /\ fired w' = fired w)
  /\
  (Forall complete (tuples_read host w) ->
   (exists w', hook host (S (S fuel)) point tag w
               = Return (next_handler point w) w') \/
   (exists lvl rep w', hook host (S (S fuel)) point tag w = Throw lvl rep w')).
Proof.
  destruct (needReloadAndEvent tag w) eqn:Hn.
  - rewrite (hook_cycle host fuel point tag w Hn).
    set (w1 := set_in_simula_event_progress true (after_register w)).
    assert (Hfw : fired w1 = fired w) by apply fired_after_register.
    assert (Hdb : db w1 = db w) by apply db_after_register.
    assert (Hex : extension_oid_valid w1 = extension_oid_valid w)
      by apply extension_after_register.
    assert (Htr : tuples_read host w1 = tuples_read host w)
      by (unfold tuples_read; now rewrite Hex, Hdb).
    assert (Hnx : forall q, next_handler q w1 = next_handler q w).
    { intros q. rewrite <- (next_handler_after_register q w). now destruct q. }
    pose proof (reloadEventTableData_frame host fuel w1 eq_refl) as Hr.
    pose proof (reloadEventTableData_crash host fuel w1) as Hcr.
    destruct (reloadEventTableData host (hook host (S fuel)) w1)
      as [[] w2|lvl2 rep2 w2|w2|]; [| | |contradiction].
    + destruct Hr as [Hr1 Hr2].
      pose proof (doEventIfAny_frame tag w2) as Hd.
      destruct (doEventIfAny tag w2) as [[] w3|lvl3 rep3 w3|w3|];
        [| |contradiction|contradiction].
      * destruct Hd as (Hd1 & _ & _).
        assert (Hnext : next_handler point w3 = next_handler point w)
          by now rewrite Hd1, Hr1, Hnx.
        split; [discriminate|].
        split; [|split; [discriminate|split; [discriminate|split;
                 [discriminate|]]]].
        -- intros next w' [= <- <-]. split; [exact Hnext|].
           exists (trace w3). reflexivity.
        -- intros _. left. rewrite Hnext. eexists. reflexivity.
      * destruct Hd as (-> & name & s & Hd).
        split; [discriminate|]. split; [discriminate|].
        split; [|split; [discriminate|split; [discriminate|]]].
        -- intros lvl rep w' [= <- <- <-]. split; [reflexivity|].
           right. split; [reflexivity|]. exists name, s.
           now rewrite Hd, Hr2, Hfw.
        -- intros _. right. now exists lvl3, simulation_by_pg_simula, w3.
    + destruct Hr as (-> & Hr1 & _ & Hr2).
      split; [discriminate|]. split; [discriminate|].
      split; [|split; [discriminate|split; [discriminate|]]].
      * intros lvl rep w' [= <- <- <-]. split; [reflexivity|].
        left. rewrite <- Hdb, <- Hfw. now repeat split.
      * intros _. right. now exists ERROR, rep2, w2.
    + destruct (Hcr w2 eq_refl eq_refl) as (Hc1 & Hc2 & Hc3 & Hc4).
      split; [discriminate|]. split; [discriminate|].
      split; [discriminate|]. split; [discriminate|]. split.
      * intros w' [= <-]. split; [reflexivity|].
        rewrite <- Hex, <- Hdb, <- Htr, <- Hfw. now repeat split.
      * intros Hc. rewrite <- Htr in Hc. now destruct (Hc3 Hc).
  - rewrite (hook_forwards_only host (S fuel) point tag w Hn).
    split; [reflexivity|].
    split; [|split; [discriminate|split; [discriminate|split;
             [discriminate|]]]].
    + intros next w' [= <- <-]. split; [reflexivity|].
      unfold forwarded. eexists. reflexivity.
    + intros _. left. eexists. reflexivity.
Qed.

Lemma hook_forwards_unless_aborted_witness :
  (needReloadAndEvent "SELECT" busy = false /\
   hook PgHost.pg_host 2 Planner "SELECT" busy
   = Return StandardHandler (forwarded Planner "SELECT" busy))
  /\
  (Forall complete (tuples_read PgHost.pg_host armed) /\
   needReloadAndEvent "DROP TABLE" armed = true /\
   ((exists w', hook PgHost.pg_host 2 Utility "DROP TABLE" armed
                = Return StandardHandler w') \/
    (exists lvl rep w', hook PgHost.pg_host 2 Utility "DROP TABLE" armed
                        = Throw lvl rep w'))).
Proof.
  split.
  - split; [reflexivity|].
    apply (proj1 (hook_forwards_unless_aborted PgHost.pg_host 0 Planner
                    "SELECT" busy)).
    reflexivity.
  - assert (Hc : Forall complete (tuples_read PgHost.pg_host armed))
      by (repeat constructor; discriminate).
    split; [exact Hc|]. split; [reflexivity|].
    apply (proj2 (proj2 (proj2 (proj2 (proj2
             (hook_forwards_unless_aborted PgHost.pg_host 0 Utility
                "DROP TABLE" armed)))))).
    exact Hc.
Defined.

(** ** The entry points that change the rules *)

Lemma forwarded_all_trace (stmts : list (HookPoint * string)) (w : World) :
  exists evs, trace (forwarded_all stmts w) = (trace w ++ evs)%list /\
              Forall guarded_request evs.
Proof.
  revert w; induction stmts as [|[point tag] rest IH]; intros w;
    cbn [forwarded_all].
  - exists []. now rewrite app_nil_r.
  - destruct (IH (forwarded point tag w)) as (evs & -> & Hevs).
    exists (EvForward point (next_handler point w) tag :: evs). split.
    + unfold forwarded, after_register.
      destruct (registered_to_callback w);
        cbn [trace emit set_registered_to_callback];
        now rewrite <- app_assoc.
    + constructor; [exact I | exact Hevs].
Qed.

Lemma requested_trace (host : Host) src read_only (w : World) :
  exists evs, trace (requested host src read_only w) = (trace w ++ evs)%list /\
              Forall guarded_request evs.
Proof.
  unfold requested.
  destruct (forwarded_all_trace (spi_statements host src (db w))
              (emit (EvSPI src read_only true) w)) as (evs & -> & Hevs).
  exists (EvSPI src read_only true :: evs). split.
  - cbn [trace emit]. now rewrite <- app_assoc.
  - constructor; [reflexivity | exact Hevs].
Qed.

Lemma extends_guarded_refl (w : World) : extends_guarded w w.
Proof. exists []. split; [now rewrite app_nil_r | constructor]. Qed.

Lemma extends_guarded_trans (w1 w2 w3 : World) :
  extends_guarded w1 w2 -> extends_guarded w2 w3 -> extends_guarded w1 w3.
Proof.
  intros (e1 & H1 & F1) (e2 & H2 & F2). exists (e1 ++ e2)%list. split.
  - now rewrite H2, H1, app_assoc.
  - apply Forall_app. now split.
Qed.

Lemma extends_guarded_same_trace (w w' : World) :
  trace w' = trace w -> extends_guarded w w'.
Proof.
  intros H. exists []. split; [now rewrite app_nil_r | constructor].
Qed.

Lemma extends_guarded_emit (e : Event) (w : World) :
  guarded_request e -> extends_guarded w (emit e w).
Proof.
  intros H. exists [e]. split; [reflexivity | now constructor].
Qed.

Lemma trace_after_register (w : World) : trace (after_register w) = trace w.
Proof. unfold after_register; now destruct (registered_to_callback w). Qed.

Lemma reloadEventTableData_extends (host : Host) (fuel : nat) (w w' : World) :
  in_simula_event_progress w = true ->
  world_of (reloadEventTableData host (hook host (S fuel)) w) = Some w' ->
  extends_guarded w w'.
Proof.
  intros Hg. rewrite (reloadEventTableData_guarded host fuel w Hg).
  destruct (extends_guarded_trans w (set_SimulaEvents [] w)
              (requested host select_sql true (set_SimulaEvents [] w))
              (extends_guarded_same_trace _ _ eq_refl)
              (requested_trace host select_sql true (set_SimulaEvents [] w)))
    as (evs & Ht & Hevs).
  assert (Hdb : forall d, extends_guarded w
            (set_db d (requested host select_sql true (set_SimulaEvents [] w))))
    by (intros d; now exists evs).
  destruct (extension_oid_valid w); cbn [negb]; cbv zeta.
  - destruct (spi_run host select_sql true (db w)) as [r tuptable db'|msg].
    + destruct (r =? SPI_OK_SELECT); cbn [negb].
      * destruct (0 <? r); [|intros [= <-]; apply Hdb].
        destruct tuptable as [vals|]; [|intros [= <-]; apply Hdb].
        destruct (load_tuples_outcome vals (set_db db'
                    (requested host select_sql true (set_SimulaEvents [] w))))
          as [-> | (w2 & -> & Hw2)]; cbn [world_of]; intros [= <-].
        -- now exists evs.
        -- exists evs. now rewrite Hw2.
      * intros [= <-]. apply Hdb.
    + intros [= <-]. now exists evs.
  - intros [= <-]. now apply extends_guarded_same_trace.
Qed.

Lemma doEventIfAny_extends (tag : string) (w w' : World) :
  world_of (doEventIfAny tag w) = Some w' -> extends_guarded w w'.
Proof.
  unfold doEventIfAny. rewrite doEventIfAny_from_find.
  destruct (find (dispatchable tag) (SimulaEvents w)) as [e|];
    [|intros [= <-]; apply extends_guarded_refl].
  destruct (lookup_action ActionTable (action e)) as [a|] eqn:L;
    [|intros [= <-]; apply extends_guarded_refl].
  pose proof (extends_guarded_emit (EvFire (act_name a) (sec e)) w I) as Hf.
  destruct (registered_behaviour _ a (sec e)
              (emit (EvFire (act_name a) (sec e)) w) L)
    as [[lvl ->] | [-> | [microsec ->]]]; cbn [world_of]; intros [= <-];
    try exact Hf.
  eapply extends_guarded_trans; [exact Hf|].
  now apply extends_guarded_emit.
Qed.

(** A hook continues the trace, and whatever it asks of the backend it
    asks with the guard set. *)
Lemma hook_extends (host : Host) (fuel : nat) (point : HookPoint)
  (tag : string) (w w' : World) :
  world_of (hook host (S (S fuel)) point tag w) = Some w' ->
  extends_guarded w w'.
Proof.
  destruct (needReloadAndEvent tag w) eqn:Hn.
  - rewrite (hook_cycle host fuel point tag w Hn).
    set (w1 := set_in_simula_event_progress true (after_register w)).
    assert (H1 : extends_guarded w w1)
      by (apply extends_guarded_same_trace, trace_after_register).
    pose proof (reloadEventTableData_extends host fuel w1) as Hr.
    destruct (reloadEventTableData host (hook host (S fuel)) w1)
      as [[] w2|lvl2 rep2 w2|w2|]; cbn [world_of] in *;
      try (intros [= <-]; eapply extends_guarded_trans;
           [exact H1 | now apply Hr]); [|discriminate].
    specialize (Hr w2 eq_refl eq_refl).
    pose proof (doEventIfAny_extends tag w2) as Hd.
    destruct (doEventIfAny tag w2) as [[] w3|lvl3 rep3 w3|w3|];
      cbn [world_of] in *; [| | |discriminate];
      specialize (Hd w3 eq_refl); intros [= <-].
    + eapply extends_guarded_trans; [exact H1|].
      eapply extends_guarded_trans; [exact Hr|].
      eapply extends_guarded_trans; [exact Hd|].
      eapply extends_guarded_trans;
        [apply (extends_guarded_same_trace w3
                  (set_in_simula_event_progress false w3) eq_refl)|].
      now apply extends_guarded_emit.
    + eapply extends_guarded_trans; [exact H1|].
      eapply extends_guarded_trans; [exact Hr | exact Hd].
    + eapply extends_guarded_trans; [exact H1|].
      eapply extends_guarded_trans; [exact Hr | exact Hd].
  - rewrite (hook_forwards_only host (S fuel) point tag w Hn).
    intros [= <-]. unfold forwarded.
    eapply extends_guarded_trans;
      [apply extends_guarded_same_trace, trace_after_register|].
    now apply extends_guarded_emit.
Qed.

(** X19.  Two levels of nesting are all a hook uses: with any larger
    bound it ends as with two, and it never exhausts it.  The statement a
    hook sends through SPI comes back through the hooks once, under the
    guard, and goes no deeper. *)
Lemma hook_fuel_enough (host : Host) (fuel : nat) (point : HookPoint)
  (tag : string) (w : World) :
  hook host (S (S fuel)) point tag w = hook host 2 point tag w /\
  hook host 2 point tag w <> OutOfFuel.
Proof.
  destruct (needReloadAndEvent tag w) eqn:Hn.
  - rewrite (hook_cycle host fuel point tag w Hn),
            (hook_cycle host 0 point tag w Hn).
    rewrite !reloadEventTableData_guarded by reflexivity.
    split; [reflexivity|].
    pose proof (reloadEventTableData_frame host 0
                  (set_in_simula_event_progress true (after_register w)) eq_refl)
      as Hr.
    rewrite reloadEventTableData_guarded in Hr by reflexivity.
    match goal with
    | |- match ?r with _ => _ end <> _ =>
        destruct r as [[] w2|lvl2 rep2 w2|w2|]; try discriminate;
          [|contradiction]
    end.
    pose proof (doEventIfAny_frame tag w2) as Hd.
    destruct (doEventIfAny tag w2) as [[] w3|lvl3 rep3 w3|w3|];
      try discriminate; contradiction.
  - rewrite !(hook_forwards_only host _ point tag w Hn).
    split; [reflexivity | discriminate].
Qed.

(** C2.  While [in_simula_event_progress] is set, either hook only
    registers the callback and forwards, whatever the tag and whatever
    the cache holds; so a statement the engine itself sends through SPI
    (its SELECT, INSERT or TRUNCATE on the rule relation) reaches the
    backend with the cache untouched and no action fired, the guard still
    set.  And the guard is set whenever a hook sends such a statement. *)
Theorem guard_set_no_refresh_no_dispatch (host : Host) (fuel : nat) :
  (forall w,
     in_simula_event_progress w = true ->
     (forall point tag,
        hook host (S fuel) point tag w
        = Return (next_handler point w) (forwarded point tag w))
     /\
     (forall src read_only,
        SPI_execute host (hook host (S fuel)) src read_only w
        = match spi_run host src read_only (db w) with
          | SpiReturn code tuptable db' =>
              Return (code, tuptable) (set_db db' (requested host src read_only w))
          | SpiRaise msg =>
              Throw ERROR (host_error msg) (requested host src read_only w)
          end
        /\ SimulaEvents (requested host src read_only w) = SimulaEvents w
        /\ fired (requested host src read_only w) = fired w
        /\ in_simula_event_progress (requested host src read_only w) = true))
  /\
  (forall w point tag w',
     world_of (hook host (S (S fuel)) point tag w) = Some w' ->
     extends_guarded w w').
Proof.
  split.
  - intros w Hg; split.
    + intros point tag. apply hook_forwards_only.
      now apply needReloadAndEvent_guarded.
    + intros src read_only.
      rewrite requested_keeps_cache, requested_keeps_fired, requested_keeps_guard.
      repeat split; try assumption.
      now apply SPI_execute_guarded.
  - intros w point tag w'. apply hook_extends.
Qed.

Lemma guard_set_no_refresh_no_dispatch_witness :
  in_simula_event_progress busy = true /\
  hook PgHost.pg_host 1 Planner "SELECT" busy
  = Return StandardHandler (forwarded Planner "SELECT" busy).
Proof.
  split; [reflexivity|].
  apply (proj1 (proj1 (guard_set_no_refresh_no_dispatch PgHost.pg_host 0)
                  busy eq_refl)).
Defined.

Lemma add_simula_event_run (host : Host) (fuel : nat) (ope act : string)
  (sec : Z) (w : World) :
  add_simula_event host (hook host (S fuel)) ope act sec w
  = let w1 := set_in_simula_event_progress true w in
    match lookup_action ActionTable act with
    | None => Throw ERROR (invalid_action act) w1
    | Some _ =>
        match spi_run host (insert_sql ope act sec) false (db w) with
        | SpiReturn code _ db' =>
            Return (negb (code =? 0))
              (set_in_simula_event_progress false
                 (set_db db' (requested host (insert_sql ope act sec) false w1)))
        | SpiRaise msg =>
            Throw ERROR (host_error msg)
              (requested host (insert_sql ope act sec) false w1)
        end
    end.
Proof.
  unfold add_simula_event, bind at 1, modify at 1. cbv zeta.
  destruct (lookup_action ActionTable act); [|reflexivity].
  unfold bind at 1. rewrite SPI_execute_guarded by reflexivity.
  cbn [db set_in_simula_event_progress].
  now destruct (spi_run host (insert_sql ope act sec) false (db w)).
Qed.

Lemma clear_all_events_run (host : Host) (fuel : nat) (w : World) :
  clear_all_events host (hook host (S fuel)) w
  = let w1 := set_in_simula_event_progress true w in
    match spi_run host truncate_sql false (db w) with
    | SpiReturn code _ db' =>
        Return (negb (code =? 0))
          (set_in_simula_event_progress false
             (set_db db' (requested host truncate_sql false w1)))
    | SpiRaise msg =>
        Throw ERROR (host_error msg) (requested host truncate_sql false w1)
    end.
Proof.
  unfold clear_all_events, bind at 1, modify at 1. cbv zeta.
  unfold bind at 1. rewrite SPI_execute_guarded by reflexivity.
  cbn [db set_in_simula_event_progress].
  now destruct (spi_run host truncate_sql false (db w)).
Qed.

(** C4, as stated, fails: a call of [add_simula_event] that is rejected
    for its action leaves with the guard set. *)
Lemma add_simula_event_leaves_guard_set :
  add_simula_event PgHost.pg_host (hook PgHost.pg_host 1) "SELECT" "bogus" 0 idle
  = Throw ERROR (invalid_action "bogus") (set_in_simula_event_progress true idle)
  /\ in_simula_event_progress (set_in_simula_event_progress true idle) = true.
Proof. split; vm_compute; reflexivity. Qed.

(** C4, amended.  [add_simula_event] and [clear_all_events] set the guard
    before their request to the backend, so that every request they issue
    is issued under the guard, and clear it once [SPI_execute] has
    returned: on a normal return the guard is clear.  When the call
    leaves by an ERROR (an action that is not in the registry, or an
    error raised by the backend inside [SPI_execute]) the guard is still
    set as the call is left; the registered transaction callback is what
    clears it, when the transaction ends. *)
Theorem mutation_guard_discipline (host : Host) (fuel : nat) (w : World) :
  (forall ope act sec,
     match add_simula_event host (hook host (S fuel)) ope act sec w with
     | Return _ w' =>
         in_simula_event_progress w' = false /\ extends_guarded w w'
     | Throw lvl _ w' =>
         lvl = ERROR /\ in_simula_event_progress w' = true /\
         extends_guarded w w' /\
         (registered_to_callback w' = true ->
          CallXactCallbacks w' = Return tt (set_in_simula_event_progress false w'))
     | Crash _ => False
     | OutOfFuel => False
     end)
  /\
  match clear_all_events host (hook host (S fuel)) w with
  | Return _ w' =>
      in_simula_event_progress w' = false /\ extends_guarded w w'
  | Throw lvl _ w' =>
      lvl = ERROR /\ in_simula_event_progress w' = true /\
      extends_guarded w w' /\
      (registered_to_callback w' = true ->
       CallXactCallbacks w' = Return tt (set_in_simula_event_progress false w'))
  | Crash _ => False
  | OutOfFuel => False
  end.
Proof.
  assert (Hcb : forall w', registered_to_callback w' = true ->
            CallXactCallbacks w' = Return tt (set_in_simula_event_progress false w')).
  { intros w' Hr. unfold CallXactCallbacks, pg_simula_xact_callback; unfold_monad.
    now rewrite Hr. }
  assert (Hreq : forall src,
            in_simula_event_progress
              (requested host src false (set_in_simula_event_progress true w)) = true /\
            extends_guarded w
              (requested host src false (set_in_simula_event_progress true w))).
  { intros src. split; [now rewrite requested_keeps_guard|].
    apply (requested_trace host src false (set_in_simula_event_progress true w)). }
  split.
  - intros ope act sec. rewrite add_simula_event_run. cbv zeta.
    destruct (lookup_action ActionTable act).
    + destruct (Hreq (insert_sql ope act sec)) as [Hg Ht].
      destruct (spi_run host (insert_sql ope act sec) false (db w)).
      * split; [reflexivity | exact Ht].
      * split; [reflexivity|]. split; [exact Hg|]. split; [exact Ht | apply Hcb].
    + split; [reflexivity|]. split; [reflexivity|].
      split; [now apply extends_guarded_same_trace | apply Hcb].
  - rewrite clear_all_events_run. cbv zeta.
    destruct (Hreq truncate_sql) as [Hg Ht].
    destruct (spi_run host truncate_sql false (db w)).
    + split; [reflexivity | exact Ht].
    + split; [reflexivity|]. split; [exact Hg|]. split; [exact Ht | apply Hcb].
Qed.

Lemma mutation_guard_discipline_witness :
  registered_to_callback (set_in_simula_event_progress true idle) = true /\
  CallXactCallbacks (set_in_simula_event_progress true idle)
  = Return tt (set_in_simula_event_progress false
                 (set_in_simula_event_progress true idle)).
Proof.
  split; [reflexivity|].
  pose proof (proj1 (mutation_guard_discipline PgHost.pg_host 0 idle)
                "SELECT" "bogus" 0) as H.
  vm_compute in H. destruct H as (_ & _ & _ & H).
  vm_compute. apply H. reflexivity.
Defined.

(** ** The [wait] action *)

Lemma wrap_int_small (z : Z) : - 2 ^ 31 <= z < 2 ^ 31 -> wrap_int z = z.
Proof.
  intros H. unfold wrap_int. rewrite Z.mod_small; lia.
Qed.

(** C9, as stated, fails: with [sec] = 3000 the product [sec * 1000 *
    1000] leaves the range of [int] and comes out negative, and with a
    negative [sec] it is negative to begin with; [pg_usleep] then does not
    sleep at all. *)
Lemma wait_func_does_not_sleep :
  wait_func 3000 idle = Return tt idle
  /\ wait_func 3000 idle <> Return tt (emit (EvSleep (3000 * 1000000)) idle)
  /\ wait_func (-1) idle = Return tt idle.
Proof.
  split; [vm_compute; reflexivity|].
  split; [vm_compute; discriminate | vm_compute; reflexivity].
Qed.

(** C9, amended.  For [sec] between 1 and 2147 the [wait] action asks
    the backend for a delay of [sec] million microseconds, which is [sec]
    seconds, and returns with nothing else changed; for [sec] = 0, and
    for a negative [sec] down to -2147, it returns at once with nothing
    changed. *)
Theorem wait_func_sleeps_sec_seconds (sec : Z) (w : World) :
  - 2147 <= sec <= 2147 ->
  wait_func sec w
  = Return tt (if 0 <? sec then emit (EvSleep (sec * 1000000)) w else w).
Proof.
  intros H. unfold wait_func, pg_usleep.
  rewrite (wrap_int_small (sec * 1000)) by lia.
  rewrite (wrap_int_small (sec * 1000 * 1000)) by lia.
  replace (sec * 1000 * 1000) with (sec * 1000000) by lia.
  destruct (0 <? sec) eqn:E.
  - apply Z.ltb_lt in E.
    assert ((0 <? sec * 1000000) = true) as -> by (apply Z.ltb_lt; lia).
    reflexivity.
  - apply Z.ltb_ge in E.
    assert ((0 <? sec * 1000000) = false) as -> by (apply Z.ltb_ge; lia).
    reflexivity.
Qed.

Lemma wait_func_sleeps_sec_seconds_witness :
  wait_func 2 idle = Return tt (emit (EvSleep 2000000) idle)
  /\ wait_func 0 idle = Return tt idle.
Proof.
  split.
  - apply (wait_func_sleeps_sec_seconds 2 idle). lia.
  - apply (wait_func_sleeps_sec_seconds 0 idle). lia.
Defined.

(** ** [add_simula_event]: validation and the statement it writes *)

(** X17.  The call is rejected for its action, before any request to the
    backend and with the guard left set, exactly when the action is in no
    entry of [ActionTable] up to case. *)
Lemma add_simula_event_rejects_unknown_action (host : Host) (fuel : nat)
  (ope act : string) (sec : Z) (w : World) :
  (forall a, In a ActionTable -> ~ same_nocase (act_name a) act) <->
  add_simula_event host (hook host (S fuel)) ope act sec w
  = Throw ERROR (invalid_action act) (set_in_simula_event_progress true w).
Proof.
  rewrite <- lookup_action_None_iff, add_simula_event_run. cbv zeta.
  destruct (lookup_action ActionTable act) eqn:L.
  - split; [discriminate|].
    destruct (spi_run host (insert_sql ope act sec) false (db w));
      discriminate.
  - tauto.
Qed.

(** C8 at an operation that holds a quote.  The action is in the
    registry, yet the text [add_simula_event] builds is not the upsert of
    (it's, error, 0): the constant that should hold the operation ends at
    its second byte, the backend rejects the text, the call leaves by an
    ERROR and the relation is as it was. *)
Theorem add_simula_event_quote_in_operation :
  insert_sql "it's" "error" 0
  = ("INSERT INTO simula_events VALUES('it's', 'error', 0) ON CONFLICT "
     ++ "ON CONSTRAINT simula_events_pkey "
     ++ "DO UPDATE SET (action, sec) = (excluded.action, excluded.sec)")%string
  /\ lookup_action ActionTable "error" = Some (mkAction "error" error_func)
  /\ add_simula_event PgHost.pg_host (hook PgHost.pg_host 1) "it's" "error" 0 idle
     = Throw ERROR (host_error "syntax error")
         (emit (EvSPI (insert_sql "it's" "error" 0) false true)
               (set_in_simula_event_progress true idle))
  /\ db (emit (EvSPI (insert_sql "it's" "error" 0) false true)
              (set_in_simula_event_progress true idle)) = db idle.
Proof.
  split; [vm_compute; reflexivity|].
  split; [vm_compute; reflexivity|].
  split; vm_compute; reflexivity.
Qed.

(** ** The reference backend on the statement of [add_simula_event] *)

Section ReferenceBackend.

Import PgHost.

Lemma strip_prefix_append (p s : string) :
  strip_prefix p (p ++ s)%string = Some s.
Proof.
  induction p as [|c p IH]; cbn [strip_prefix String.append].
  - reflexivity.
  - now rewrite Ascii.eqb_refl.
Qed.

Lemma lex_constant_quote_free (v rest : string) :
  quote_free v = true ->
  is_quote (peek rest) = false ->
  lex_constant (v ++ String "'"%char rest)%string = Some (v, rest).
Proof.
  intros Hv Hr.
  induction v as [|c v IH]; cbn [String.append lex_constant].
  - change (is_quote "'"%char) with true. cbv iota.
    destruct rest as [|c' r']; [reflexivity|].
    cbn [peek] in Hr. now rewrite Hr.
  - cbn [quote_free] in Hv. apply andb_true_iff in Hv as [Hc Hv].
    apply negb_true_iff in Hc. rewrite Hc, (IH Hv). reflexivity.
Qed.

Lemma until_paren_paren_free (v rest : string) :
  paren_free v = true ->
  until_paren (v ++ String ")"%char rest)%string = Some (v, rest).
Proof.
  intros Hv.
  induction v as [|c v IH]; cbn [String.append until_paren].
  - reflexivity.
  - cbn [paren_free] in Hv. apply andb_true_iff in Hv as [Hc Hv].
    apply negb_true_iff in Hc. rewrite Hc, (IH Hv). reflexivity.
Qed.

Lemma string_of_uint_paren_free (d : Decimal.uint) :
  paren_free (NilEmpty.string_of_uint d) = true.
Proof. induction d; cbn [NilEmpty.string_of_uint paren_free]; auto. Qed.

Lemma string_of_uint_empty (d : Decimal.uint) :
  NilEmpty.string_of_uint d = EmptyString -> d = Decimal.Nil.
Proof. destruct d; cbn; congruence. Qed.

Lemma fmt_d_paren_free (z : Z) : paren_free (fmt_d z) = true.
Proof.
  unfold fmt_d, NilEmpty.string_of_int.
  destruct (Z.to_int z); [|cbn [paren_free]]; apply string_of_uint_paren_free.
Qed.

(** The backend reads back the integer [%d] printed. *)
Lemma lex_integer_fmt_d (z : Z) : int_range z -> lex_integer (fmt_d z) = Some z.
Proof.
  intros Hz. unfold lex_integer.
  assert (Hi : NilEmpty.int_of_string (fmt_d z) = Some (Z.to_int z))
    by apply NilEmpty.isi.
  assert (Hne : fmt_d z <> EmptyString /\ fmt_d z <> String "-"%char EmptyString).
  { unfold fmt_d, NilEmpty.string_of_int.
    destruct z as [|p|p]; cbn [Z.to_int].
    - split; discriminate.
    - pose proof (DecimalPos.Unsigned.to_uint_nonnil p) as Hp.
      destruct (Pos.to_uint p); try contradiction; split; discriminate.
    - pose proof (DecimalPos.Unsigned.to_uint_nonnil p) as Hp.
      split; [discriminate|]. intros [= H].
      now apply string_of_uint_empty in H. }
  destruct Hne as [H1 H2].
  rewrite Hi, DecimalZ.of_to.
  assert (((- 2 ^ 31 <=? z) && (z <? 2 ^ 31)) = true) as Hr.
  { unfold int_range in Hz. apply andb_true_iff.
    split; [apply Z.leb_le | apply Z.ltb_lt]; lia. }
  rewrite Hr.
  destruct (fmt_d z) as [|c [|c' r]]; try congruence.
  - destruct c as [[] [] [] [] [] [] [] []]; try reflexivity. congruence.
  - destruct c as [[] [] [] [] [] [] [] []]; reflexivity.
Qed.

(** The text written for an operation and an action that hold no quote is
    read by the backend as the upsert of these values. *)
Lemma parse_insert_sql (ope act : string) (sec : Z) :
  quote_free (c_str ope) = true ->
  quote_free (c_str act) = true ->
  int_range sec ->
  parse (insert_sql ope act sec) = Some (Upsert (c_str ope) (c_str act) sec).
Proof.
  intros Ho Ha Hs.
  assert (Hform : insert_sql ope act sec
    = (insert_head ++ (c_str ope ++ String "'"%char
         (", '" ++ (c_str act ++ String "'"%char
            (", " ++ (fmt_d sec ++ String ")"%char insert_tail))))))%string)
    by reflexivity.
  unfold parse.
  assert (String.eqb (insert_sql ope act sec) select_sql = false) as ->
    by reflexivity.
  assert (String.eqb (insert_sql ope act sec) truncate_sql = false) as ->
    by reflexivity.
  unfold parse_insert. rewrite Hform, strip_prefix_append.
  rewrite (lex_constant_quote_free _ _ Ho) by reflexivity.
  rewrite (strip_prefix_append ", '").
  rewrite (lex_constant_quote_free _ _ Ha) by reflexivity.
  rewrite (strip_prefix_append ", ").
  rewrite (until_paren_paren_free _ _ (fmt_d_paren_free sec)).
  rewrite (lex_integer_fmt_d _ Hs).
  now rewrite String.eqb_refl.
Qed.

Lemma is_quote_lower (c : ascii) : is_quote (lower c) = is_quote c.
Proof.
  unfold is_quote. rewrite byte_lower. unfold fold_case.
  destruct ((65 <=? byte c) && (byte c <=? 90)) eqn:E; [|reflexivity].
  apply andb_true_iff in E as [E1 E2].
  apply Z.leb_le in E1, E2.
  transitivity false; [|symmetry]; apply Z.eqb_neq; lia.
Qed.

Lemma quote_free_lower_string (s : string) :
  quote_free (lower_string s) = quote_free s.
Proof.
  induction s as [|c r IH]; cbn [lower_string quote_free]; [reflexivity|].
  now rewrite is_quote_lower, IH.
Qed.

(** An action the registry knows holds no quote. *)
Lemma registered_action_quote_free (act : string) (a : Action) :
  lookup_action ActionTable act = Some a -> quote_free (c_str act) = true.
Proof.
  intros H. pose proof (lookup_action_registered _ _ H) as Hcase.
  apply lookup_action_Some in H as [_ H]. unfold same_nocase in H.
  rewrite <- quote_free_lower_string, <- H.
  destruct Hcase as [-> | [-> | [-> | ->]]]; reflexivity.
Qed.

(** The upsert on rows that respect the key. *)
Lemma filter_has_key_absent (op : string) (rows : list Row) :
  ~ In op (map row_operation rows) -> filter (has_key op) rows = [].
Proof.
  induction rows as [|r rest IH]; cbn [map In filter]; intros H.
  - reflexivity.
  - unfold has_key at 1.
    destruct (String.eqb_spec (row_operation r) op) as [E|E]; [tauto|].
    apply IH. tauto.
Qed.

Lemma existsb_has_key (op : string) (rows : list Row) :
  existsb (has_key op) rows = true <-> In op (map row_operation rows).
Proof.
  rewrite existsb_exists, in_map_iff. unfold has_key.
  split; intros (r & H1 & H2).
  - exists r. now apply String.eqb_eq in H2.
  - exists r. split; [exact H2 | now apply String.eqb_eq].
Qed.

Lemma has_key_replace (op : string) (new r : Row) :
  row_operation new = op ->
  has_key op (if has_key op r then new else r) = has_key op r.
Proof.
  intros Hn. destruct (has_key op r) eqn:E; [|exact E].
  unfold has_key. rewrite Hn. apply String.eqb_refl.
Qed.

Lemma filter_has_key_replace (op : string) (new : Row) (rows : list Row) :
  row_operation new = op ->
  filter (has_key op) (map (fun r => if has_key op r then new else r) rows)
  = map (fun _ => new) (filter (has_key op) rows).
Proof.
  intros Hn. induction rows as [|r rest IH]; cbn [map filter]; [reflexivity|].
  rewrite (has_key_replace op new r Hn).
  destruct (has_key op r); cbn [map]; now rewrite IH.
Qed.

Lemma filter_has_key_unique (op : string) (rows : list Row) :
  key_unique rows ->
  In op (map row_operation rows) ->
  exists r, filter (has_key op) rows = [r].
Proof.
  unfold key_unique.
  induction rows as [|r rest IH]; cbn [map In filter]; intros Hu Hin;
    [contradiction|].
  inversion Hu as [|k ks Hk Hrest]; subst.
  unfold has_key at 1.
  destruct (String.eqb_spec (row_operation r) op) as [E|E].
  - exists r. f_equal. apply filter_has_key_absent. now rewrite <- E.
  - apply IH; [exact Hrest | tauto].
Qed.

Lemma upsert_one_row (op act : string) (sec : Z) (rows : list Row) :
  key_unique rows ->
  filter (has_key op) (upsert op act sec rows) = [mkRow op (Some act) (Some sec)].
Proof.
  unfold upsert. intros Hu.
  destruct (existsb (has_key op) rows) eqn:E.
  - apply existsb_has_key in E.
    rewrite filter_has_key_replace by reflexivity.
    destruct (filter_has_key_unique op rows Hu E) as [r ->]. reflexivity.
  - rewrite filter_app. cbn [filter]. unfold has_key at 2.
    cbn [row_operation]. rewrite String.eqb_refl.
    rewrite filter_has_key_absent; [reflexivity|].
    intros H. apply existsb_has_key in H. congruence.
Qed.

Lemma upsert_keys (op act : string) (sec : Z) (rows : list Row) :
  map row_operation (upsert op act sec rows)
  = if existsb (has_key op) rows then map row_operation rows
    else (map row_operation rows ++ [op])%list.
Proof.
  unfold upsert. destruct (existsb (has_key op) rows).
  - rewrite map_map. apply map_ext. intros r. unfold has_key.
    destruct (String.eqb_spec (row_operation r) op) as [E|E]; [now cbn|reflexivity].
  - now rewrite map_app.
Qed.

Lemma upsert_key_unique (op act : string) (sec : Z) (rows : list Row) :
  key_unique rows -> key_unique (upsert op act sec rows).
Proof.
  unfold key_unique. intros Hu. rewrite upsert_keys.
  destruct (existsb (has_key op) rows) eqn:E; [exact Hu|].
  apply NoDup_app; [exact Hu | repeat constructor; intros [] |].
  intros k Hk [<-|[]]. apply existsb_has_key in Hk. congruence.
Qed.

Lemma upsert_other_rows (op act : string) (sec : Z) (rows : list Row) :
  filter (fun r => negb (has_key op r)) (upsert op act sec rows)
  = filter (fun r => negb (has_key op r)) rows.
Proof.
  unfold upsert. destruct (existsb (has_key op) rows).
  - induction rows as [|r rest IH]; cbn [map filter]; [reflexivity|].
    rewrite has_key_replace by reflexivity.
    destruct (has_key op r) eqn:E; cbn [negb]; now rewrite IH.
  - rewrite filter_app. cbn [filter]. unfold has_key at 2.
    cbn [row_operation]. rewrite String.eqb_refl. cbn [negb].
    now rewrite app_nil_r.
Qed.

(** With an action of the registry, an operation that holds no quote and
    the relation in place, [add_simula_event] upserts the row keyed by the
    operation and returns true; a second call for the same operation
    leaves one row for it, with the second action and [sec]. *)
Lemma add_simula_event_upserts (fuel : nat) (ope act : string) (sec : Z)
  (rows : list Row) (w : World) :
  quote_free (c_str ope) = true ->
  lookup_action ActionTable act <> None ->
  int_range sec ->
  db w = Some rows ->
  exists w',
    add_simula_event pg_host (hook pg_host (S fuel)) ope act sec w = Return true w' /\
    db w' = Some (upsert (c_str ope) (c_str act) sec rows) /\
    in_simula_event_progress w' = false /\
    SimulaEvents w' = SimulaEvents w.
Proof.
  intros Ho Ha Hs Hdb.
  rewrite add_simula_event_run. cbv zeta.
  destruct (lookup_action ActionTable act) as [a|] eqn:L; [|congruence].
  pose proof (registered_action_quote_free act a L) as Hq.
  cbn [spi_run pg_host]. unfold run.
  rewrite (parse_insert_sql ope act sec Ho Hq Hs), Hdb.
  eexists. split; [reflexivity|]. cbn [db set_in_simula_event_progress set_db].
  repeat split.
  cbn [SimulaEvents set_in_simula_event_progress set_db].
  now rewrite requested_keeps_cache.
Qed.

(** X18.  On the reference backend, two calls of [add_simula_event] for
    the same operation (without a quote, actions of the registry) on a
    relation that respects its key both return true and leave one row for
    that operation, holding the action and [sec] of the second call; the
    rows of the other operations are as they were. *)
Lemma add_simula_event_twice (fuel : nat) (ope act1 act2 : string)
  (sec1 sec2 : Z) (rows : list Row) (w : World) :
  quote_free (c_str ope) = true ->
  lookup_action ActionTable act1 <> None ->
  lookup_action ActionTable act2 <> None ->
  int_range sec1 -> int_range sec2 ->
  key_unique rows ->
  db w = Some rows ->
  exists w1 w2 rows2,
    add_simula_event pg_host (hook pg_host (S fuel)) ope act1 sec1 w = Return true w1 /\
    add_simula_event pg_host (hook pg_host (S fuel)) ope act2 sec2 w1 = Return true w2 /\
    db w2 = Some rows2 /\
    key_unique rows2 /\
    filter (has_key (c_str ope)) rows2
    = [mkRow (c_str ope) (Some (c_str act2)) (Some sec2)] /\
    filter (fun r => negb (has_key (c_str ope) r)) rows2
    = filter (fun r => negb (has_key (c_str ope) r)) rows.
Proof.
  intros Ho Ha1 Ha2 Hs1 Hs2 Hu Hdb.
  destruct (add_simula_event_upserts fuel ope act1 sec1 rows w Ho Ha1 Hs1 Hdb)
    as (w1 & E1 & D1 & _).
  destruct (add_simula_event_upserts fuel ope act2 sec2 _ w1 Ho Ha2 Hs2 D1)
    as (w2 & E2 & D2 & _).
  exists w1, w2, (upsert (c_str ope) (c_str act2) sec2
                    (upsert (c_str ope) (c_str act1) sec1 rows)).
  repeat split; try assumption.
  - now apply upsert_key_unique, upsert_key_unique.
  - now apply upsert_one_row, upsert_key_unique.
  - now rewrite !upsert_other_rows.
Qed.

End ReferenceBackend.

(** ** Runs of the whole engine on the reference backend *)

Example pg_strcasecmp_folds_letters :
  pg_strcasecmp "select" "SELECT" = 0 /\
  pg_strcasecmp "BEGIN" "BEGIN WORK" = -32 /\
  pg_strcasecmp "a" "B" = -1.
Proof. split; [|split]; vm_compute; reflexivity. Qed.

Example atoi_reads_what_fmt_d_prints :
  atoi (fmt_d 42) = 42 /\ atoi (fmt_d (-7)) = -7 /\ atoi (fmt_d 0) = 0 /\
  atoi "  12abc" = 12 /\ atoi "+5" = 5 /\ atoi "x" = 0.
Proof. split; [|split; [|split; [|split; [|split]]]]; vm_compute; reflexivity. Qed.

Example rule_truncates_long_text :
  c_str (operation (rule long_text "error" 0))
  = string_of_list_ascii (repeat "x"%char 100)
  /\ c_str (operation (rule "DROP TABLE" "error" 0)) = "DROP TABLE".
Proof. split; vm_compute; reflexivity. Qed.

(** A rule whose operation fills its buffer has no terminator there: the
    comparison of [doEventIfAny] runs on into the action.  The rule does
    not match the 100 bytes its operation holds, and it matches these
    bytes followed by its action. *)
Example operation_read_runs_into_action :
  let ope := string_of_list_ascii (repeat "x"%char 100) in
  let w := PgHost.session true [rule long_text "error" 0] [] in
  at_operation (rule long_text "error" 0)
  = (ope ++ buffer 100 "error" ++ buffer 4 EmptyString)%string /\
  doEventIfAny ope w = Return tt w /\
  doEventIfAny (ope ++ "error") w
  = Throw ERROR simulation_by_pg_simula (emit (EvFire "error" 0) w).
Proof.
  split; [vm_compute; reflexivity|].
  split; vm_compute; reflexivity.
Qed.

(** A rule (DROP TABLE, error, 0): the next DROP TABLE leaves by an ERROR
    and is not forwarded. *)
Example scenario_error :
  exists w',
    (add_simula_event PgHost.pg_host (hook PgHost.pg_host 1) "DROP TABLE" "error" 0 ;;
     pg_simula_ProcessUtility PgHost.pg_host 2 "DROP TABLE") idle
    = Throw ERROR simulation_by_pg_simula w'
    /\ fired w' = [EvFire "error" 0].
Proof. eexists. split; vm_compute; reflexivity. Qed.

(** A rule (SELECT, wait, 2): the next SELECT sleeps two seconds and is
    forwarded. *)
Example scenario_wait :
  exists w',
    (add_simula_event PgHost.pg_host (hook PgHost.pg_host 1) "SELECT" "wait" 2 ;;
     pg_simula_planner PgHost.pg_host 2 "SELECT") idle
    = Return StandardHandler w'
    /\ filter (fun e => negb (is_query e)) (trace w')
       = [EvForward Planner StandardHandler "INSERT";
          EvForward Planner StandardHandler "SELECT";
          EvFire "wait" 2; EvSleep 2000000;
          EvForward Planner StandardHandler "SELECT"].
Proof. eexists. split; vm_compute; reflexivity. Qed.

(** A rule (VACUUM, panic, 0): the next VACUUM takes the process down. *)
Example scenario_panic :
  exists w',
    (add_simula_event PgHost.pg_host (hook PgHost.pg_host 1) "VACUUM" "panic" 0 ;;
     pg_simula_ProcessUtility PgHost.pg_host 2 "VACUUM") idle
    = Throw PANIC simulation_by_pg_simula w'.
Proof. eexists. vm_compute. reflexivity. Qed.

(** The same rule as in the first run with simulation disabled: the
    statement is forwarded and nothing is read or fired. *)
Example scenario_disabled :
  exists w',
    (add_simula_event PgHost.pg_host (hook PgHost.pg_host 1) "DROP TABLE" "error" 0 ;;
     pg_simula_ProcessUtility PgHost.pg_host 2 "DROP TABLE") disabled
    = Return StandardHandler w'
    /\ fired w' = [] /\ SimulaEvents w' = [].
Proof.
  eexists. split; [vm_compute; reflexivity|].
  split; vm_compute; reflexivity.
Qed.

(** After [clear_all_events] no rule is left to act on. *)
Example scenario_clear :
  exists w',
    (add_simula_event PgHost.pg_host (hook PgHost.pg_host 1) "DROP TABLE" "error" 0 ;;
     clear_all_events PgHost.pg_host (hook PgHost.pg_host 1) ;;
     pg_simula_ProcessUtility PgHost.pg_host 2 "DROP TABLE") idle
    = Return StandardHandler w'
    /\ fired w' = [] /\ db w' = Some [].
Proof.
  eexists. split; [vm_compute; reflexivity|].
  split; vm_compute; reflexivity.
Qed.

(** * Further properties of the engine *)

(** ** What an interception leaves behind *)

Lemma framed_after_register {A : Type} (f : World -> A) (w : World) :
  framed f -> f (after_register w) = f w.
Proof.
  intros (_ & _ & _ & Hr). unfold after_register.
  destruct (registered_to_callback w); [reflexivity | apply Hr].
Qed.

Lemma framed_forwarded {A : Type} (f : World -> A) :
  framed f -> forall point tag w, f (forwarded point tag w) = f w.
Proof.
  intros Hf point tag w. unfold forwarded.
  destruct Hf as (He & Hf). rewrite He.
  apply framed_after_register. now split.
Qed.

Lemma framed_requested {A : Type} (f : World -> A) (host : Host) src read_only
  (w : World) :
  framed f -> f (requested host src read_only w) = f w.
Proof.
  intros Hf. unfold requested.
  rewrite (forwarded_all_keeps f (framed_forwarded f Hf)).
  now destruct Hf as (He & _).
Qed.

Lemma load_tuples_shape (vals : list Tuple) (w w' : World) :
  world_of (load_tuples vals w) = Some w' ->
  exists l, w' = set_SimulaEvents l w.
Proof.
  revert w; induction vals as [|t rest IH]; intros w; cbn [load_tuples].
  - intros [= <-]. exists (SimulaEvents w). now destruct w.
  - assert (Hw : exists l, w = set_SimulaEvents l w)
      by (exists (SimulaEvents w); now destruct w).
    destruct (SPI_getvalue t 1) as [ope|]; [|intros [= <-]; exact Hw].
    destruct (SPI_getvalue t 2) as [act|]; [|intros [= <-]; exact Hw].
    destruct (SPI_getvalue t 3) as [s|]; [|intros [= <-]; exact Hw].
    unfold bind, modify. intros H. apply IH in H as [l ->].
    exists l. reflexivity.
Qed.

(** The refresh under the guard changes no framed projection. *)
Lemma reloadEventTableData_keeps {A : Type} (f : World -> A) (host : Host)
  (fuel : nat) (w w' : World) :
  framed f ->
  in_simula_event_progress w = true ->
  world_of (reloadEventTableData host (hook host (S fuel)) w) = Some w' ->
  f w' = f w.
Proof.
  intros Hf Hg. rewrite (reloadEventTableData_guarded host fuel w Hg).
  pose proof Hf as (He & Hd & Hl & Hr).
  assert (H1 : f (requested host select_sql true (set_SimulaEvents [] w)) = f w)
    by (now rewrite framed_requested, Hl).
  destruct (extension_oid_valid w); cbn [negb]; cbv zeta.
  - destruct (spi_run host select_sql true (db w)) as [r tuptable db'|msg].
    + destruct (r =? SPI_OK_SELECT); cbn [negb].
      * destruct (0 <? r); [|intros [= <-]; now rewrite Hd].
        destruct tuptable as [vals|]; [|intros [= <-]; now rewrite Hd].
        intros H. apply load_tuples_shape in H as [l ->].
        now rewrite Hl, Hd.
      * intros [= <-]. now rewrite Hd.
    + intros [= <-]. exact H1.
  - intros [= <-]. apply Hl.
Qed.

(** The worlds a dispatch can leave. *)
Lemma doEventIfAny_shape (tag : string) (w w' : World) :
  world_of (doEventIfAny tag w) = Some w' ->
  w' = w \/
  exists name s, w' = emit (EvFire name s) w \/
                 exists microsec, w' = emit (EvSleep microsec) (emit (EvFire name s) w).
Proof.
  unfold doEventIfAny. rewrite doEventIfAny_from_find.
  destruct (find (dispatchable tag) (SimulaEvents w)) as [e|];
    [|intros [= <-]; now left].
  destruct (lookup_action ActionTable (action e)) as [a|] eqn:L;
    [|intros [= <-]; now left].
  destruct (registered_behaviour _ a (sec e)
              (emit (EvFire (act_name a) (sec e)) w) L)
    as [[lvl ->] | [-> | [microsec ->]]]; cbn [world_of]; intros [= <-];
    right; exists (act_name a), (sec e).
  - now left.
  - now left.
  - right. now exists microsec.
Qed.

Lemma doEventIfAny_keeps {A : Type} (f : World -> A) (tag : string)
  (w w' : World) :
  (forall e w, f (emit e w) = f w) ->
  world_of (doEventIfAny tag w) = Some w' -> f w' = f w.
Proof.
  intros He H.
  destruct (doEventIfAny_shape tag w w' H)
    as [-> | (name & s & [-> | (microsec & ->)])];
    now rewrite ?He.
Qed.

Lemma framed_settings : framed settings.
Proof. repeat split. Qed.

Lemma framed_guard : framed in_simula_event_progress.
Proof. repeat split. Qed.

Lemma forwarded_all_registered (stmts : list (HookPoint * string)) (w : World) :
  registered_to_callback w = true ->
  registered_to_callback (forwarded_all stmts w) = true.
Proof.
  revert w; induction stmts as [|[point tag] rest IH]; intros w Hr;
    cbn [forwarded_all]; [exact Hr|].
  apply IH. unfold forwarded, after_register. now rewrite Hr.
Qed.

Lemma reloadEventTableData_registered (host : Host) (fuel : nat) (w w' : World) :
  in_simula_event_progress w = true ->
  registered_to_callback w = true ->
  world_of (reloadEventTableData host (hook host (S fuel)) w) = Some w' ->
  registered_to_callback w' = true.
Proof.
  intros Hg Hr. rewrite (reloadEventTableData_guarded host fuel w Hg).
  assert (H1 : registered_to_callback
                 (requested host select_sql true (set_SimulaEvents [] w)) = true)
    by (unfold requested; now apply forwarded_all_registered).
  destruct (extension_oid_valid w); cbn [negb]; cbv zeta.
  - destruct (spi_run host select_sql true (db w)) as [r tuptable db'|msg].
    + destruct (r =? SPI_OK_SELECT); cbn [negb].
      * destruct (0 <? r); [|intros [= <-]; exact H1].
        destruct tuptable as [vals|]; [|intros [= <-]; exact H1].
        intros H. apply load_tuples_shape in H as [l ->]. exact H1.
      * intros [= <-]. exact H1.
    + intros [= <-]. exact H1.
  - intros [= <-]. exact Hr.
Qed.

Lemma registered_after_register (w : World) :
  registered_to_callback (after_register w) = true.
Proof.
  unfold after_register.
  now destruct (registered_to_callback w) eqn:E.
Qed.

(** The state in which the cycle of a hook begins. *)
Lemma cycle_start (w : World) :
  let w1 := set_in_simula_event_progress true (after_register w) in
  in_simula_event_progress w1 = true /\ registered_to_callback w1 = true /\
  settings w1 = settings w /\ db w1 = db w.
Proof.
  cbv zeta. split; [reflexivity|]. split.
  - apply (registered_after_register w).
  - unfold after_register. now destruct (registered_to_callback w).
Qed.

(** The state a hook leaves, however it ends. *)
Lemma hook_state (host : Host) (fuel : nat) (point : HookPoint) (tag : string)
  (w w' : World) :
  world_of (hook host (S (S fuel)) point tag w) = Some w' ->
  settings w' = settings w /\ registered_to_callback w' = true /\
  in_simula_event_progress w' =
    match hook host (S (S fuel)) point tag w with
    | Return _ _ => in_simula_event_progress w
    | _ => true
    end.
Proof.
  destruct (needReloadAndEvent tag w) eqn:Hn.
  - assert (Hgw : in_simula_event_progress w = false).
    { unfold needReloadAndEvent in Hn.
      destruct (in_simula_event_progress w); [|reflexivity].
      now rewrite andb_false_r in Hn. }
    rewrite (hook_cycle host fuel point tag w Hn).
    destruct (cycle_start w) as (Hg1 & Hr1 & Hs1 & _).
    set (w1 := set_in_simula_event_progress true (after_register w)) in *.
    pose proof (reloadEventTableData_keeps settings host fuel w1) as Ks.
    pose proof (reloadEventTableData_keeps in_simula_event_progress host fuel w1)
      as Kg.
    pose proof (reloadEventTableData_registered host fuel w1) as Kr.
    destruct (reloadEventTableData host (hook host (S fuel)) w1)
      as [[] w2|lvl2 rep2 w2|w2|]; cbn [world_of] in *; [| | |discriminate].
    + specialize (Ks w2 framed_settings Hg1 eq_refl).
      specialize (Kg w2 framed_guard Hg1 eq_refl).
      specialize (Kr w2 Hg1 Hr1 eq_refl).
      pose proof (doEventIfAny_keeps settings tag w2) as Ds.
      pose proof (doEventIfAny_keeps in_simula_event_progress tag w2) as Dg.
      pose proof (doEventIfAny_keeps registered_to_callback tag w2) as Dr.
      destruct (doEventIfAny tag w2) as [[] w3|lvl3 rep3 w3|w3|];
        cbn [world_of] in *; [| | |discriminate];
        specialize (Ds w3 (fun _ _ => eq_refl) eq_refl);
        specialize (Dg w3 (fun _ _ => eq_refl) eq_refl);
        specialize (Dr w3 (fun _ _ => eq_refl) eq_refl);
        intros [= <-].
      * split; [|split].
        -- transitivity (settings w3); [reflexivity|]. congruence.
        -- cbn. congruence.
        -- cbn. now rewrite Hgw.
      * repeat split; congruence.
      * repeat split; congruence.
    + intros [= <-].
      specialize (Ks w2 framed_settings Hg1 eq_refl).
      specialize (Kg w2 framed_guard Hg1 eq_refl).
      specialize (Kr w2 Hg1 Hr1 eq_refl).
      repeat split; congruence.
    + intros [= <-].
      specialize (Ks w2 framed_settings Hg1 eq_refl).
      specialize (Kg w2 framed_guard Hg1 eq_refl).
      specialize (Kr w2 Hg1 Hr1 eq_refl).
      repeat split; congruence.
  - rewrite (hook_forwards_only host (S fuel) point tag w Hn).
    intros [= <-]. unfold forwarded. split; [|split].
    + unfold after_register. now destruct (registered_to_callback w).
    + cbn. apply registered_after_register.
    + unfold after_register. now destruct (registered_to_callback w).
Qed.

(** X1.  A hook that returns leaves the reentrancy guard as it found it,
    has the transaction callback registered, and has changed none of the
    switches and hook flags. *)
Theorem hook_return_restores_guard (host : Host) (fuel : nat)
  (point : HookPoint) (tag : string) (w : World) (next : Handler) (w' : World) :
  hook host (S (S fuel)) point tag w = Return next w' ->
  in_simula_event_progress w' = in_simula_event_progress w /\
  registered_to_callback w' = true /\
  settings w' = settings w.
Proof.
  intros H.
  destruct (hook_state host fuel point tag w w') as (Hs & Hr & Hg).
  - now rewrite H.
  - rewrite H in Hg. now repeat split.
Qed.

Lemma hook_return_restores_guard_witness :
  exists w',
    hook PgHost.pg_host 2 Planner "SELECT" shadowed = Return StandardHandler w' /\
    in_simula_event_progress w' = in_simula_event_progress shadowed.
Proof.
  eexists. split.
  - vm_compute. reflexivity.
  - refine (proj1 (hook_return_restores_guard PgHost.pg_host 0 Planner "SELECT"
                     shadowed StandardHandler _ _)).
    vm_compute. reflexivity.
Defined.

(** X2.  A hook that leaves by an error leaves the reentrancy guard set.
    From then on either hook only forwards, whatever the tag: nothing is
    read and nothing is injected until the transaction callback, which is
    registered, clears the guard at the end of the transaction. *)
Theorem hook_error_suspends_injection (host : Host) (fuel : nat)
  (point : HookPoint) (tag : string) (w : World) (lvl : elevel) (rep : Report)
  (w' : World) :
  hook host (S (S fuel)) point tag w = Throw lvl rep w' ->
  in_simula_event_progress w' = true /\
  (forall fuel' point' tag',
     hook host (S fuel') point' tag' w'
     = Return (next_handler point' w') (forwarded point' tag' w')) /\
  CallXactCallbacks w' = Return tt (set_in_simula_event_progress false w') /\
  needReloadAndEvent tag (set_in_simula_event_progress false w')
  = needReloadAndEvent tag w.
Proof.
  intros H.
  destruct (hook_state host fuel point tag w w') as (Hs & Hr & Hg).
  - now rewrite H.
  - rewrite H in Hg. split; [exact Hg|]. split; [|split].
    + intros fuel' point' tag'. apply hook_forwards_only.
      now apply needReloadAndEvent_guarded.
    + unfold CallXactCallbacks, pg_simula_xact_callback; unfold_monad.
      now rewrite Hr.
    + destruct (needReloadAndEvent tag w) eqn:Hn.
      * unfold settings in Hs. injection Hs as _ _ He Ht _.
        unfold needReloadAndEvent in *.
        cbn [simulation_enabled transaction_state in_simula_event_progress
             set_in_simula_event_progress].
        rewrite He, Ht.
        destruct (simulation_enabled w); [|discriminate].
        destruct (in_simula_event_progress w); [discriminate|].
        exact Hn.
      * rewrite (hook_forwards_only host (S fuel) point tag w Hn) in H.
        discriminate.
Qed.

Lemma hook_error_suspends_injection_witness :
  exists w',
    hook PgHost.pg_host 2 Planner "SELECT" unreadable
    = Throw ERROR (host_error "relation does not exist") w' /\
    in_simula_event_progress w' = true.
Proof.
  eexists. split.
  - vm_compute. reflexivity.
  - refine (proj1 (hook_error_suspends_injection PgHost.pg_host 0 Planner "SELECT"
                     unreadable ERROR (host_error "relation does not exist") _ _)).
    vm_compute. reflexivity.
Defined.

(** X3.  When the guard predicate holds, what a hook does is the same
    whatever the cache held on entry: the rules acted on are always the
    ones just read. *)
Theorem hook_ignores_previous_cache (host : Host) (fuel : nat)
  (point : HookPoint) (tag : string) (w : World) (cache : list SimulaEvent) :
  needReloadAndEvent tag w = true ->
  hook host (S (S fuel)) point tag (set_SimulaEvents cache w)
  = hook host (S (S fuel)) point tag w.
Proof.
  intros Hn.
  rewrite (hook_cycle host fuel point tag w Hn).
  rewrite (hook_cycle host fuel point tag (set_SimulaEvents cache w)) by exact Hn.
  rewrite !reloadEventTableData_guarded by reflexivity.
  assert (E0 : set_SimulaEvents []
                 (set_in_simula_event_progress true
                    (after_register (set_SimulaEvents cache w)))
               = set_SimulaEvents []
                   (set_in_simula_event_progress true (after_register w)))
    by (unfold after_register; cbn [registered_to_callback set_SimulaEvents];
        now destruct (registered_to_callback w)).
  assert (E1 : extension_oid_valid
                 (set_in_simula_event_progress true
                    (after_register (set_SimulaEvents cache w)))
               = extension_oid_valid
                   (set_in_simula_event_progress true (after_register w)))
    by (unfold after_register; cbn [registered_to_callback set_SimulaEvents];
        now destruct (registered_to_callback w)).
  assert (E2 : db (set_in_simula_event_progress true
                     (after_register (set_SimulaEvents cache w)))
               = db (set_in_simula_event_progress true (after_register w)))
    by (unfold after_register; cbn [registered_to_callback set_SimulaEvents];
        now destruct (registered_to_callback w)).
  now rewrite E0, E1, E2.
Qed.

Lemma hook_ignores_previous_cache_witness :
  needReloadAndEvent "SELECT" idle = true /\
  hook PgHost.pg_host 2 Planner "SELECT" (set_SimulaEvents shadowed_cache idle)
  = hook PgHost.pg_host 2 Planner "SELECT" idle.
Proof.
  split; [reflexivity|].
  apply (hook_ignores_previous_cache PgHost.pg_host 0 Planner "SELECT" idle
           shadowed_cache).
  reflexivity.
Defined.

(** ** Letter case *)

Lemma pg_strcasecmp_eqb_nocase (s t t' : string) :
  same_nocase t t' ->
  (pg_strcasecmp s t =? 0) = (pg_strcasecmp s t' =? 0).
Proof.
  intros Ht.
  destruct (pg_strcasecmp s t =? 0) eqn:E1; destruct (pg_strcasecmp s t' =? 0) eqn:E2;
    try reflexivity; exfalso.
  - apply Z.eqb_eq, pg_strcasecmp_0_iff in E1. apply Z.eqb_neq in E2.
    apply E2, pg_strcasecmp_0_iff. now apply (same_nocase_trans s t t').
  - apply Z.eqb_eq, pg_strcasecmp_0_iff in E2. apply Z.eqb_neq in E1.
    apply E1, pg_strcasecmp_0_iff.
    apply (same_nocase_trans s t' t); [exact E2 | now apply same_nocase_sym].
Qed.

Lemma pg_strcasecmp_eqb_nocase_l (s s' t : string) :
  same_nocase s s' ->
  (pg_strcasecmp s t =? 0) = (pg_strcasecmp s' t =? 0).
Proof.
  intros Hs.
  destruct (pg_strcasecmp s t =? 0) eqn:E1; destruct (pg_strcasecmp s' t =? 0) eqn:E2;
    try reflexivity; exfalso.
  - apply Z.eqb_eq, pg_strcasecmp_0_iff in E1. apply Z.eqb_neq in E2.
    apply E2, pg_strcasecmp_0_iff.
    apply (same_nocase_trans s' s t); [now apply same_nocase_sym | exact E1].
  - apply Z.eqb_eq, pg_strcasecmp_0_iff in E2. apply Z.eqb_neq in E1.
    apply E1, pg_strcasecmp_0_iff. now apply (same_nocase_trans s s' t).
Qed.

Lemma lookup_action_nocase (table : list Action) (name name' : string) :
  same_nocase name name' ->
  lookup_action table name = lookup_action table name'.
Proof.
  intros Hn. induction table as [|act rest IH]; cbn [lookup_action];
    [reflexivity|].
  rewrite (pg_strcasecmp_eqb_nocase (act_name act) name name' Hn).
  now rewrite IH.
Qed.

Lemma find_pointwise {A : Type} (f g : A -> bool) (l : list A) :
  (forall x, f x = g x) -> find f l = find g l.
Proof.
  intros H. induction l as [|x l IH]; cbn [find]; [reflexivity|].
  now rewrite H, IH.
Qed.

(** X4.  The engine does not see the case of the letters of a command
    tag: two tags that agree up to case get the same answer from the guard
    predicate and the same dispatch. *)
Theorem dispatch_ignores_tag_case (tag tag' : string) (w : World) :
  same_nocase tag tag' ->
  needReloadAndEvent tag w = needReloadAndEvent tag' w /\
  doEventIfAny tag w = doEventIfAny tag' w.
Proof.
  intros Ht. split.
  - unfold needReloadAndEvent.
    now rewrite (pg_strcasecmp_eqb_nocase_l tag tag' "START TRANSACTION" Ht),
                (pg_strcasecmp_eqb_nocase_l tag tag' "BEGIN" Ht).
  - unfold doEventIfAny. rewrite !doEventIfAny_from_find.
    rewrite (find_pointwise (dispatchable tag) (dispatchable tag')); [reflexivity|].
    intros e. unfold dispatchable, op_matches.
    now rewrite (pg_strcasecmp_eqb_nocase (at_operation e) tag tag' Ht).
Qed.

Lemma dispatch_ignores_tag_case_witness :
  same_nocase "select" "SELECT" /\
  doEventIfAny "select" shadowed = doEventIfAny "SELECT" shadowed.
Proof.
  split; [reflexivity|].
  apply (dispatch_ignores_tag_case "select" "SELECT" shadowed). reflexivity.
Defined.

(** ** Requests to the backend *)

Lemma queries_emit (e : Event) (w : World) :
  queries (emit e w) = (queries w ++ if is_query e then [e] else [])%list.
Proof.
  unfold queries; cbn [trace emit]. rewrite filter_app. cbn [filter].
  now destruct (is_query e).
Qed.

Lemma forwarded_keeps_queries (point : HookPoint) (tag : string) (w : World) :
  queries (forwarded point tag w) = queries w.
Proof.
  unfold forwarded. rewrite queries_emit. cbn [is_query]. rewrite app_nil_r.
  unfold after_register. now destruct (registered_to_callback w).
Qed.

Lemma requested_queries (host : Host) src read_only (w : World) :
  queries (requested host src read_only w)
  = (queries w ++ [EvSPI src read_only true])%list.
Proof.
  unfold requested. rewrite (forwarded_all_keeps _ forwarded_keeps_queries).
  apply queries_emit.
Qed.

Lemma reloadEventTableData_queries (host : Host) (fuel : nat) (w w' : World) :
  in_simula_event_progress w = true ->
  world_of (reloadEventTableData host (hook host (S fuel)) w) = Some w' ->
  queries w' = (queries w ++ if extension_oid_valid w
                             then [EvSPI select_sql true true] else [])%list.
Proof.
  intros Hg. rewrite (reloadEventTableData_guarded host fuel w Hg).
  assert (H1 : queries (requested host select_sql true (set_SimulaEvents [] w))
               = (queries w ++ [EvSPI select_sql true true])%list)
    by (now rewrite requested_queries).
  destruct (extension_oid_valid w); cbn [negb]; cbv zeta.
  - destruct (spi_run host select_sql true (db w)) as [r tuptable db'|msg].
    + destruct (r =? SPI_OK_SELECT); cbn [negb].
      * destruct (0 <? r); [|intros [= <-]; exact H1].
        destruct tuptable as [vals|]; [|intros [= <-]; exact H1].
        intros H. apply load_tuples_shape in H as [l ->]. exact H1.
      * intros [= <-]. exact H1.
    + intros [= <-]. exact H1.
  - intros [= <-]. now rewrite app_nil_r.
Qed.

Lemma doEventIfAny_queries (tag : string) (w w' : World) :
  world_of (doEventIfAny tag w) = Some w' -> queries w' = queries w.
Proof.
  intros H.
  destruct (doEventIfAny_shape tag w w' H)
    as [-> | (name & s & [-> | (microsec & ->)])];
    rewrite ?queries_emit; cbn [is_query]; now rewrite ?app_nil_r.
Qed.

(** X5.  However it ends, an interception sends the backend at most one
    request, the read-only SELECT on the rule relation, and it sends it
    exactly when the guard predicate holds and the extension is created in
    the database. *)
Theorem hook_sends_one_select (host : Host) (fuel : nat) (point : HookPoint)
  (tag : string) (w w' : World) :
  world_of (hook host (S (S fuel)) point tag w) = Some w' ->
  queries w'
  = (queries w ++ if needReloadAndEvent tag w && extension_oid_valid w
                  then [EvSPI select_sql true true] else [])%list.
Proof.
  destruct (needReloadAndEvent tag w) eqn:Hn; cbn [andb].
  - rewrite (hook_cycle host fuel point tag w Hn).
    destruct (cycle_start w) as (Hg1 & _ & Hs1 & _).
    set (w1 := set_in_simula_event_progress true (after_register w)) in *.
    assert (Hq1 : queries w1 = queries w)
      by (unfold w1, after_register; now destruct (registered_to_callback w)).
    assert (He1 : extension_oid_valid w1 = extension_oid_valid w)
      by (unfold settings in Hs1; now injection Hs1).
    pose proof (reloadEventTableData_queries host fuel w1) as Kq.
    rewrite He1, Hq1 in Kq.
    destruct (reloadEventTableData host (hook host (S fuel)) w1)
      as [[] w2|lvl2 rep2 w2|w2|]; cbn [world_of] in *;
      [| intros [= <-]; now apply Kq | intros [= <-]; now apply Kq | discriminate].
    specialize (Kq w2 Hg1 eq_refl).
    pose proof (doEventIfAny_queries tag w2) as Dq.
    destruct (doEventIfAny tag w2) as [[] w3|lvl3 rep3 w3|w3|];
      cbn [world_of] in *; [| | |discriminate];
      specialize (Dq w3 eq_refl); intros [= <-].
    + rewrite queries_emit. cbn [is_query]. rewrite app_nil_r.
      transitivity (queries w3); [reflexivity | congruence].
    + congruence.
    + congruence.
  - rewrite (hook_forwards_only host (S fuel) point tag w Hn).
    intros [= <-]. now rewrite forwarded_keeps_queries, app_nil_r.
Qed.

Lemma hook_sends_one_select_witness :
  exists w',
    world_of (hook PgHost.pg_host 2 Planner "SELECT" shadowed) = Some w' /\
    queries w' = [EvSPI select_sql true true].
Proof.
  eexists. split.
  - vm_compute. reflexivity.
  - refine (hook_sends_one_select PgHost.pg_host 0 Planner "SELECT" shadowed _ _).
    vm_compute. reflexivity.
Defined.

(** ** Rows the refresh cannot take *)

Lemma load_tuples_incomplete (vals : list Tuple) (w : World) :
  ~ Forall complete vals ->
  exists w', load_tuples vals w = Crash w' /\ trace w' = trace w.
Proof.
  intros Hn.
  destruct (load_tuples_outcome vals w) as [H | (w' & H & Ht)].
  - exfalso. apply Hn. now apply (load_tuples_returns vals w _ H).
  - now exists w'.
Qed.

(** X6.  When the read of the rule relation returns a tuple with a NULL
    among its first three columns, the hook that ran the refresh ends in
    the dereference of a NULL pointer: the statement is not forwarded and
    no action is fired. *)
Theorem hook_crashes_on_null_column (host : Host) (fuel : nat)
  (point : HookPoint) (tag : string) (w : World) (vals : list Tuple) (db' : Db) :
  needReloadAndEvent tag w = true ->
  extension_oid_valid w = true ->
  spi_run host select_sql true (db w) = SpiReturn SPI_OK_SELECT (Some vals) db' ->
  ~ Forall complete vals ->
  exists w', hook host (S (S fuel)) point tag w = Crash w' /\ fired w' = fired w.
Proof.
  intros Hn He Hs Hc.
  rewrite (hook_cycle host fuel point tag w Hn).
  destruct (cycle_start w) as (Hg1 & _ & Hs1 & Hd1).
  set (w1 := set_in_simula_event_progress true (after_register w)) in *.
  assert (He1 : extension_oid_valid w1 = true)
    by (unfold settings in Hs1; injection Hs1; congruence).
  assert (Hf1 : fired w1 = fired w) by apply fired_after_register.
  rewrite (reloadEventTableData_guarded host fuel w1 Hg1), He1, Hd1, Hs.
  cbn [negb]. cbv zeta.
  change (SPI_OK_SELECT =? SPI_OK_SELECT) with true.
  change (0 <? SPI_OK_SELECT) with true. cbn [negb].
  destruct (load_tuples_incomplete vals
              (set_db db' (requested host select_sql true (set_SimulaEvents [] w1)))
              Hc) as (w' & -> & Ht).
  exists w'. split; [reflexivity|].
  unfold fired. rewrite Ht. cbn [trace set_db].
  fold (fired (requested host select_sql true (set_SimulaEvents [] w1))).
  now rewrite requested_keeps_fired.
Qed.

Lemma hook_crashes_on_null_column_witness :
  exists w',
    hook PgHost.pg_host 2 Planner "UPDATE" null_action = Crash w' /\
    fired w' = fired null_action.
Proof.
  apply (hook_crashes_on_null_column PgHost.pg_host 0 Planner "UPDATE" null_action
           [[Some "SELECT"; None; Some "0"]]
           (Some [mkRow "SELECT" None (Some 0)])).
  - reflexivity.
  - reflexivity.
  - vm_compute. reflexivity.
  - intros H. inversion H as [|t l Ht _]; subst.
    destruct Ht as (_ & Ht & _). now apply Ht.
Defined.

(** ** Rules behind their buffers *)

Lemma take_all (n : nat) (s : string) :
  (String.length s <= n)%nat -> take n s = s.
Proof.
  revert s; induction n as [|n IH]; intros [|c r]; cbn [take String.length];
    intros H; try reflexivity; try lia.
  rewrite IH; [reflexivity | lia].
Qed.

Lemma take_length (n : nat) (s : string) :
  (n <= String.length s)%nat -> String.length (take n s) = n.
Proof.
  revert s; induction n as [|n IH]; intros [|c r]; cbn [take String.length];
    intros H; try reflexivity; try lia.
  rewrite IH; [reflexivity | lia].
Qed.

Lemma c_str_idempotent (s : string) : c_str (c_str s) = c_str s.
Proof.
  induction s as [|c r IH]; cbn [c_str]; [reflexivity|].
  destruct (byte c =? 0) eqn:E; cbn [c_str]; [reflexivity|].
  now rewrite E, IH.
Qed.

(** A value shorter than the buffer is read back whole. *)
Lemma strncpy_short (s : string) :
  (String.length (c_str s) < MAX_LENGTH)%nat ->
  same_nocase (strncpy s MAX_LENGTH) s.
Proof.
  intros H. unfold same_nocase.
  rewrite strncpy_truncates, take_all; [reflexivity | lia].
Qed.

Lemma op_matches_short (ope act : string) (s : Z) (tag : string) :
  (String.length (c_str ope) < MAX_LENGTH)%nat ->
  (op_matches tag (rule ope act s) = true <-> same_nocase ope tag).
Proof.
  intros Hl. unfold op_matches, at_operation, rule; cbn [operation].
  rewrite pg_strcasecmp_buffer
    by (right; rewrite strncpy_truncates, take_all; lia).
  rewrite Z.eqb_eq, pg_strcasecmp_0_iff.
  pose proof (strncpy_short ope Hl) as Hs. split; intros H.
  - apply (same_nocase_trans ope (strncpy ope MAX_LENGTH) tag);
      [now apply same_nocase_sym | exact H].
  - now apply (same_nocase_trans (strncpy ope MAX_LENGTH) ope tag).
Qed.

Lemma op_matches_long (ope act : string) (s : Z) (tag : string) :
  (MAX_LENGTH <= String.length (c_str ope))%nat ->
  (String.length (c_str tag) < MAX_LENGTH)%nat ->
  op_matches tag (rule ope act s) = false.
Proof.
  intros Hl Ht. unfold op_matches, at_operation, rule; cbn [operation].
  rewrite pg_strcasecmp_buffer by now left.
  apply Z.eqb_neq. rewrite pg_strcasecmp_0_iff. intros H.
  apply same_nocase_length in H.
  rewrite strncpy_truncates, take_length in H by exact Hl. lia.
Qed.

(** X7.  A rule whose operation is shorter than 100 bytes matches
    exactly the tags equal to the operation up to case.  A rule whose
    operation has 100 bytes or more matches no tag shorter than 100
    bytes, so the dispatcher never acts on it for such a tag. *)
Theorem rule_operation_matching (ope act : string) (s : Z) (tag : string) :
  ((String.length (c_str ope) < 100)%nat ->
   (op_matches tag (rule ope act s) = true <-> same_nocase ope tag))
  /\
  ((100 <= String.length (c_str ope))%nat ->
   (String.length (c_str tag) < 100)%nat ->
   op_matches tag (rule ope act s) = false /\
   dispatchable tag (rule ope act s) = false).
Proof.
  split.
  - intros Hl. now apply op_matches_short.
  - intros Hl Ht.
    pose proof (op_matches_long ope act s tag Hl Ht) as E.
    unfold dispatchable. now rewrite E.
Qed.

Lemma rule_operation_matching_witness :
  (op_matches "select" (rule "SELECT" "wait" 2) = true <-> same_nocase "SELECT" "select")
  /\ (op_matches "SELECT" (rule long_text "wait" 2) = false /\
      dispatchable "SELECT" (rule long_text "wait" 2) = false).
Proof.
  split.
  - apply (proj1 (rule_operation_matching "SELECT" "wait" 2 "select")).
    vm_compute. lia.
  - apply (proj2 (rule_operation_matching long_text "wait" 2 "SELECT"));
      vm_compute; lia.
Defined.

Lemma lookup_action_strncpy (act : string) :
  lookup_action ActionTable (strncpy act MAX_LENGTH)
  = lookup_action ActionTable act.
Proof.
  destruct (Nat.lt_ge_cases (String.length (c_str act)) MAX_LENGTH) as [Hl|Hl].
  - apply lookup_action_nocase. now apply strncpy_short.
  - assert (Hlong : forall x,
              (MAX_LENGTH <= String.length (c_str x))%nat ->
              lookup_action ActionTable x = None).
    { intros x Hx. apply lookup_action_None_iff. intros a Ha Hsame.
      apply same_nocase_length in Hsame.
      pose proof (registered_name_short a Ha). unfold MAX_LENGTH in Hx. lia. }
    rewrite (Hlong act Hl). apply Hlong.
    rewrite strncpy_truncates, take_length by exact Hl. lia.
Qed.

(** X8.  The dispatcher finds in the registry the action of a rule read
    through its 100-byte buffer exactly when [add_simula_event] would
    accept that action, and it finds the same entry: what the check at
    write time lets through is what the lookup at dispatch time finds,
    whatever the length of the value. *)
Theorem rule_action_lookup (ope act : string) (s : Z) :
  lookup_action ActionTable (action (rule ope act s))
  = lookup_action ActionTable act
  /\
  (registered_action (rule ope act s) = true <->
   lookup_action ActionTable act <> None).
Proof.
  unfold registered_action. rewrite lookup_action_at_action.
  unfold rule; cbn [action].
  rewrite lookup_action_strncpy. split; [reflexivity|].
  destruct (lookup_action ActionTable act); split; congruence.
Qed.

(** ** The delay of [wait] *)

Lemma wrap_int_range (z : Z) : - 2 ^ 31 <= wrap_int z < 2 ^ 31.
Proof.
  unfold wrap_int.
  pose proof (Z.mod_pos_bound (z + 2 ^ 31) (2 ^ 32) ltac:(lia)). lia.
Qed.

Lemma wrap_int_multiple (z : Z) : exists k, wrap_int z = z + k * 2 ^ 32.
Proof.
  unfold wrap_int. exists (- ((z + 2 ^ 31) / 2 ^ 32)).
  pose proof (Z.div_mod (z + 2 ^ 31) (2 ^ 32) ltac:(lia)). lia.
Qed.

(** X9.  Whatever its parameter, [wait] returns and changes nothing but
    the trace.  The delay it passes to [pg_usleep] is [sec] million
    microseconds reduced to the 32 bits of an [int]: it sleeps that long
    when it is positive, hence never 2^31 microseconds or more, and does
    not sleep otherwise. *)
Theorem wait_func_delay (sec : Z) (w : World) :
  exists microsec k,
    microsec = sec * 1000000 + k * 2 ^ 32 /\
    - 2 ^ 31 <= microsec < 2 ^ 31 /\
    wait_func sec w
    = Return tt (if 0 <? microsec then emit (EvSleep microsec) w else w).
Proof.
  destruct (wrap_int_multiple (sec * 1000)) as [k1 H1].
  destruct (wrap_int_multiple (wrap_int (sec * 1000) * 1000)) as [k2 H2].
  exists (wrap_int (wrap_int (sec * 1000) * 1000)), (k1 * 1000 + k2).
  split; [rewrite H2, H1; lia|].
  split; [apply wrap_int_range|].
  unfold wait_func, pg_usleep.
  now destruct (0 <? wrap_int (wrap_int (sec * 1000) * 1000)).
Qed.

(** ** The boolean the entry points return *)

(** X10.  When [SPI_execute] returns instead of raising, [add_simula_event]
    (for an action of the registry) and [clear_all_events] return true for
    every code other than 0, negative error codes included; the guard is
    clear and the relation is as the backend left it. *)
Theorem mutation_result_is_nonzero_code (host : Host) (fuel : nat) (w : World) :
  (forall ope act sec code tuptable db',
     lookup_action ActionTable act <> None ->
     spi_run host (insert_sql ope act sec) false (db w)
     = SpiReturn code tuptable db' ->
     exists w',
       add_simula_event host (hook host (S fuel)) ope act sec w
       = Return (negb (code =? 0)) w' /\
       db w' = db' /\ in_simula_event_progress w' = false)
  /\
  (forall code tuptable db',
     spi_run host truncate_sql false (db w) = SpiReturn code tuptable db' ->
     exists w',
       clear_all_events host (hook host (S fuel)) w
       = Return (negb (code =? 0)) w' /\
       db w' = db' /\ in_simula_event_progress w' = false).
Proof.
  split.
  - intros ope act sec code tuptable db' Ha Hs.
    rewrite add_simula_event_run. cbv zeta.
    destruct (lookup_action ActionTable act); [|congruence].
    rewrite Hs. eexists. now repeat split.
  - intros code tuptable db' Hs.
    rewrite clear_all_events_run. cbv zeta. rewrite Hs.
    eexists. now repeat split.
Qed.

Lemma mutation_result_is_nonzero_code_witness :
  exists w',
    clear_all_events refusing_host (hook refusing_host 1) idle = Return true w' /\
    db w' = db idle /\ in_simula_event_progress w' = false.
Proof.
  apply (proj2 (mutation_result_is_nonzero_code refusing_host 0 idle)
           (-6) None (db idle)).
  reflexivity.
Defined.

(** ** Refresh and dispatch together *)

Lemma hook_refreshed (host : Host) (fuel : nat) (point : HookPoint)
  (tag : string) (w : World) (vals : list Tuple) (db' : Db) :
  needReloadAndEvent tag w = true ->
  extension_oid_valid w = true ->
  spi_run host select_sql true (db w) = SpiReturn SPI_OK_SELECT (Some vals) db' ->
  Forall complete vals ->
  hook host (S (S fuel)) point tag w
  = match doEventIfAny tag (refreshed host vals db' w) with
    | Return _ w3 =>
        Return (next_handler point w3)
               (emit (EvForward point (next_handler point w3) tag)
                     (set_in_simula_event_progress false w3))
    | Throw lvl r w3 => Throw lvl r w3
    | Crash w3 => Crash w3
    | OutOfFuel => OutOfFuel
    end.
Proof.
  intros Hn He Hs Hc.
  rewrite (hook_cycle host fuel point tag w Hn).
  destruct (cycle_start w) as (Hg1 & _ & Hs1 & Hd1).
  unfold refreshed.
  set (w1 := set_in_simula_event_progress true (after_register w)) in *.
  assert (He1 : extension_oid_valid w1 = true)
    by (unfold settings in Hs1; injection Hs1; congruence).
  rewrite (reloadEventTableData_guarded host fuel w1 Hg1), He1, Hd1, Hs.
  cbn [negb]. cbv zeta.
  change (SPI_OK_SELECT =? SPI_OK_SELECT) with true.
  change (0 <? SPI_OK_SELECT) with true. cbn [negb].
  rewrite (load_tuples_complete _ _ Hc).
  cbn [SimulaEvents set_db]. rewrite requested_keeps_cache.
  reflexivity.
Qed.

Lemma refreshed_facts (host : Host) (vals : list Tuple) (db' : Db) (w : World) :
  SimulaEvents (refreshed host vals db' w) = map rule_of_tuple vals /\
  fired (refreshed host vals db' w) = fired w /\
  db (refreshed host vals db' w) = db' /\
  (forall q, next_handler q (refreshed host vals db' w) = next_handler q w).
Proof.
  unfold refreshed. split; [reflexivity|]. split; [|split; [reflexivity|]].
  - rewrite fired_set_SimulaEvents, fired_set_db, requested_keeps_fired.
    rewrite fired_set_SimulaEvents.
    unfold fired at 1. cbn [trace set_in_simula_event_progress].
    apply fired_after_register.
  - intros q.
    transitivity (next_handler q
                    (requested host select_sql true
                       (set_SimulaEvents []
                          (set_in_simula_event_progress true (after_register w)))));
      [now destruct q|].
    rewrite requested_keeps_next.
    rewrite <- (next_handler_after_register q w). now destruct q.
Qed.

(** The hook when no rule read is dispatchable for the tag. *)
Lemma hook_fresh_none (host : Host) (fuel : nat) (point : HookPoint)
  (tag : string) (w : World) (vals : list Tuple) (db' : Db) :
  needReloadAndEvent tag w = true ->
  extension_oid_valid w = true ->
  spi_run host select_sql true (db w) = SpiReturn SPI_OK_SELECT (Some vals) db' ->
  Forall complete vals ->
  find (dispatchable tag) (map rule_of_tuple vals) = None ->
  hook host (S (S fuel)) point tag w
  = Return (next_handler point w)
      (emit (EvForward point (next_handler point w) tag)
            (set_in_simula_event_progress false (refreshed host vals db' w))).
Proof.
  intros Hn He Hs Hc F.
  rewrite (hook_refreshed host fuel point tag w vals db' Hn He Hs Hc).
  destruct (refreshed_facts host vals db' w) as (Rc & _ & _ & Rn).
  unfold doEventIfAny. rewrite doEventIfAny_from_find, Rc, F.
  now rewrite Rn.
Qed.

(** The hook when a rule read is dispatchable for the tag: the outcome
    is the outcome of its behaviour, followed by the forward if it
    returns. *)
Lemma hook_fresh_some (host : Host) (fuel : nat) (point : HookPoint)
  (tag : string) (w : World) (vals : list Tuple) (db' : Db)
  (e : SimulaEvent) (a : Action) :
  needReloadAndEvent tag w = true ->
  extension_oid_valid w = true ->
  spi_run host select_sql true (db w) = SpiReturn SPI_OK_SELECT (Some vals) db' ->
  Forall complete vals ->
  find (dispatchable tag) (map rule_of_tuple vals) = Some e ->
  lookup_action ActionTable (action e) = Some a ->
  hook host (S (S fuel)) point tag w
  = match func a (sec e)
            (emit (EvFire (act_name a) (sec e)) (refreshed host vals db' w)) with
    | Return _ w3 =>
        Return (next_handler point w3)
               (emit (EvForward point (next_handler point w3) tag)
                     (set_in_simula_event_progress false w3))
    | Throw lvl r w3 => Throw lvl r w3
    | Crash w3 => Crash w3
    | OutOfFuel => OutOfFuel
    end.
Proof.
  intros Hn He Hs Hc F L.
  rewrite (hook_refreshed host fuel point tag w vals db' Hn He Hs Hc).
  destruct (refreshed_facts host vals db' w) as (Rc & _).
  unfold doEventIfAny. now rewrite doEventIfAny_from_find, Rc, F, L.
Qed.

(** X11.  With the guard predicate true for a command tag, the
    extension created and the read returning complete tuples, a hook acts
    on the first rule read whose operation is the tag up to case and
    whose action is a registry name up to case.  When no rule read is
    such, the statement is forwarded with nothing fired and the guard
    clear.  When there is one, exactly its action is fired with its
    [sec]: the hook leaves at ERROR, PANIC or FATAL without forwarding
    when the action is [error], [panic] or [fatal], and forwards with the
    guard clear when it is [wait]. *)
Theorem hook_acts_on_fresh_rules (host : Host) (fuel : nat) (point : HookPoint)
  (tag : string) (w : World) (vals : list Tuple) (db' : Db) :
  (String.length (c_str tag) < MAX_LENGTH)%nat ->
  needReloadAndEvent tag w = true ->
  extension_oid_valid w = true ->
  spi_run host select_sql true (db w) = SpiReturn SPI_OK_SELECT (Some vals) db' ->
  Forall complete vals ->
  ((forall t, In t vals -> ~ eligible tag (rule_of_tuple t)) ->
   exists w',
     hook host (S (S fuel)) point tag w = Return (next_handler point w) w' /\
     fired w' = fired w /\ in_simula_event_progress w' = false /\
     SimulaEvents w' = map rule_of_tuple vals)
  /\
  (forall pre t rest a,
     vals = (pre ++ t :: rest)%list ->
     (forall x, In x pre -> ~ eligible tag (rule_of_tuple x)) ->
     same_nocase (operation (rule_of_tuple t)) tag ->
     In a ActionTable ->
     same_nocase (act_name a) (action (rule_of_tuple t)) ->
     exists w',
       fired w'
       = (fired w ++ [EvFire (act_name a) (sec (rule_of_tuple t))])%list /\
       (act_name a = "error" ->
        hook host (S (S fuel)) point tag w
        = Throw ERROR simulation_by_pg_simula w') /\
       (act_name a = "panic" ->
        hook host (S (S fuel)) point tag w
        = Throw PANIC simulation_by_pg_simula w') /\
       (act_name a = "fatal" ->
        hook host (S (S fuel)) point tag w
        = Throw FATAL simulation_by_pg_simula w') /\
       (act_name a = "wait" ->
        hook host (S (S fuel)) point tag w = Return (next_handler point w) w' /\
        in_simula_event_progress w' = false)).
Proof.
  intros Ht Hn He Hs Hc.
  destruct (refreshed_facts host vals db' w) as (Rc & Rf & _ & Rn).
  split.
  - intros Hnone.
    assert (F : find (dispatchable tag) (map rule_of_tuple vals) = None).
    { apply (find_dispatchable_none tag _ Ht).
      intros x Hx. apply in_map_iff in Hx as (t & <- & Hin). now apply Hnone. }
    rewrite (hook_fresh_none host fuel point tag w vals db' Hn He Hs Hc F).
    eexists. split; [reflexivity|]. split; [|split].
    + unfold fired. cbn [trace emit set_in_simula_event_progress].
      rewrite filter_app. cbn [filter is_fire]. rewrite app_nil_r. exact Rf.
    + reflexivity.
    + exact Rc.
  - intros pre t rest a Hv Hpre Hm Ha Hsame.
    set (e := rule_of_tuple t) in *.
    assert (Hpre' : forall x, In x (map rule_of_tuple pre) -> ~ eligible tag x).
    { intros x Hx. apply in_map_iff in Hx as (y & <- & Hin). now apply Hpre. }
    destruct (find_dispatchable_first tag (map rule_of_tuple pre) e
                (map rule_of_tuple rest) a Ht Hpre' Hm Ha Hsame) as [F L].
    assert (F' : find (dispatchable tag) (map rule_of_tuple vals) = Some e)
      by (rewrite Hv, map_app; exact F).
    rewrite (hook_fresh_some host fuel point tag w vals db' e a Hn He Hs Hc F' L).
    pose proof (lookup_action_registered _ _ L) as Hcase.
    set (w2 := emit (EvFire (act_name a) (sec e)) (refreshed host vals db' w)).
    assert (Hf2 : fired w2 = (fired w ++ [EvFire (act_name a) (sec e)])%list)
      by (unfold w2; now rewrite fired_emit_fire, Rf).
    assert (Hn2 : next_handler point w2 = next_handler point w)
      by (unfold w2; rewrite <- (Rn point); now destruct point).
    clear F F' L Ha Hsame.
    destruct Hcase as [-> | [-> | [-> | ->]]]; cbn [func act_name] in *.
    + exists w2. repeat split; try discriminate; assumption.
    + exists w2. repeat split; try discriminate; assumption.
    + unfold wait_func, pg_usleep.
      destruct (0 <? wrap_int (wrap_int (sec e * 1000) * 1000)).
      * exists (emit (EvForward point (next_handler point w) tag)
                  (set_in_simula_event_progress false
                     (emit (EvSleep (wrap_int (wrap_int (sec e * 1000) * 1000)))
                           w2))).
        split; [|repeat split; try discriminate].
        -- unfold fired. cbn [trace emit set_in_simula_event_progress].
           rewrite !filter_app. cbn [filter is_fire]. rewrite !app_nil_r.
           exact Hf2.
        -- unfold modify.
           assert (Hn3 : next_handler point
                           (emit (EvSleep (wrap_int (wrap_int (sec e * 1000) * 1000)))
                                 w2)
                         = next_handler point w)
             by (rewrite <- Hn2; now destruct point).
           now rewrite Hn3.
      * exists (emit (EvForward point (next_handler point w) tag)
                  (set_in_simula_event_progress false w2)).
        split; [|repeat split; try discriminate].
        -- unfold fired. cbn [trace emit set_in_simula_event_progress].
           rewrite !filter_app. cbn [filter is_fire]. rewrite !app_nil_r.
           exact Hf2.
        -- unfold ret. now rewrite Hn2.
    + exists w2. repeat split; try discriminate; assumption.
Qed.

Lemma hook_acts_on_fresh_rules_witness :
  exists w',
    fired w' = [EvFire "error" 0] /\
    hook PgHost.pg_host 2 Utility "drop table" armed
    = Throw ERROR simulation_by_pg_simula w'.
Proof.
  destruct (hook_acts_on_fresh_rules PgHost.pg_host 0 Utility "drop table" armed
              [[Some "DROP TABLE"; Some "error"; Some "0"]]
              (Some [mkRow "DROP TABLE" (Some "error") (Some 0)])) as [_ H].
  - vm_compute. lia.
  - reflexivity.
  - reflexivity.
  - vm_compute. reflexivity.
  - repeat constructor; discriminate.
  - destruct (H [] [Some "DROP TABLE"; Some "error"; Some "0"] []
                (mkAction "error" error_func)) as (w' & Hf & He & _).
    + reflexivity.
    + intros x [].
    + reflexivity.
    + left. reflexivity.
    + reflexivity.
    + exists w'. split; [exact Hf | apply He; reflexivity].
Defined.

(** ** The integer of a rule *)

Lemma atoi_digits_of_uint_acc (d : Decimal.uint) (acc : positive) :
  atoi_digits (Z.pos acc) (NilEmpty.string_of_uint d)
  = Z.pos (Pos.of_uint_acc d acc).
Proof.
  revert acc; induction d; intros acc;
    cbn [NilEmpty.string_of_uint atoi_digits Pos.of_uint_acc];
    [reflexivity| | | | | | | | | |];
    match goal with
    | |- context [digit_val ?c] =>
        let v := eval vm_compute in (digit_val c) in
        change (digit_val c) with v; cbv iota beta
    end;
    rewrite <- IHd; f_equal; lia.
Qed.

Lemma atoi_digits_of_uint (d : Decimal.uint) :
  atoi_digits 0 (NilEmpty.string_of_uint d) = Z.of_N (Pos.of_uint d).
Proof.
  induction d;
    cbn [NilEmpty.string_of_uint atoi_digits Pos.of_uint];
    [reflexivity| | | | | | | | | |];
    match goal with
    | |- context [digit_val ?c] =>
        let v := eval vm_compute in (digit_val c) in
        change (digit_val c) with v; cbv iota beta
    end;
    [exact IHd | ..]; cbn [Z.of_N];
    rewrite <- atoi_digits_of_uint_acc; f_equal.
Qed.

Lemma atoi_of_digits (c : ascii) (r : string) :
  isspace c = false -> c <> "-"%char -> c <> "+"%char ->
  atoi (String c r) = wrap_int (atoi_digits 0 (String c r)).
Proof.
  intros Hs Hm Hp. unfold atoi. cbn [skip_space]. rewrite Hs.
  destruct c as [[] [] [] [] [] [] [] []]; try reflexivity; congruence.
Qed.

Lemma atoi_string_of_uint (d : Decimal.uint) :
  atoi (NilEmpty.string_of_uint d) = wrap_int (Z.of_uint d).
Proof.
  unfold Z.of_uint. rewrite <- atoi_digits_of_uint.
  destruct d; cbn [NilEmpty.string_of_uint]; [reflexivity | ..];
    apply atoi_of_digits; try reflexivity; discriminate.
Qed.

(** [atoi] reads back the integer [%d] printed. *)
Lemma atoi_fmt_d (z : Z) : int_range z -> atoi (fmt_d z) = z.
Proof.
  intros Hz. unfold int_range in Hz.
  rewrite <- (DecimalZ.of_to z) at 2.
  rewrite <- (wrap_int_small (Z.of_int (Z.to_int z)))
    by (rewrite DecimalZ.of_to; exact Hz).
  unfold fmt_d, NilEmpty.string_of_int.
  destruct (Z.to_int z) as [d|d]; cbn [Z.of_int].
  - apply atoi_string_of_uint.
  - unfold atoi. cbn [skip_space].
    change (isspace "-"%char) with false. cbv iota.
    now rewrite atoi_digits_of_uint.
Qed.

(** ** From the entry points to the next statement, on the reference backend *)

Lemma needReloadAndEvent_true (tag : string) (w : World) :
  simulation_enabled w = true ->
  in_simula_event_progress w = false ->
  transaction_state w = true ->
  ~ same_nocase tag "BEGIN" ->
  ~ same_nocase tag "START TRANSACTION" ->
  needReloadAndEvent tag w = true.
Proof.
  intros He Hg Ht Hb Hs. unfold needReloadAndEvent.
  rewrite He, Hg, Ht. cbn [andb negb].
  apply andb_true_iff. split; now apply pg_strcasecmp_eqb_neg.
Qed.

Lemma same_nocase_c_str (s : string) : same_nocase (c_str s) s.
Proof. unfold same_nocase. now rewrite c_str_idempotent. Qed.

(** X12.  On an empty rule relation, a rule added through
    [add_simula_event] (operation without a quote and shorter than 100
    bytes, action of the registry) is the rule the next interception acts
    on for every tag equal to the operation up to case: its action is
    fired, once, with the [sec] that was given. *)
Theorem added_rule_is_dispatched (fuel : nat) (point : HookPoint)
  (ope act : string) (seconds : Z) (tag : string) (a : Action) (w : World) :
  quote_free (c_str ope) = true ->
  (String.length (c_str ope) < 100)%nat ->
  lookup_action ActionTable act = Some a ->
  int_range seconds ->
  db w = Some [] ->
  extension_oid_valid w = true ->
  simulation_enabled w = true ->
  transaction_state w = true ->
  same_nocase ope tag ->
  ~ same_nocase tag "BEGIN" ->
  ~ same_nocase tag "START TRANSACTION" ->
  exists w1 w2,
    add_simula_event PgHost.pg_host (hook PgHost.pg_host (S fuel)) ope act seconds w
    = Return true w1 /\
    world_of (hook PgHost.pg_host (S (S fuel)) point tag w1) = Some w2 /\
    fired w2 = (fired w ++ [EvFire (act_name a) seconds])%list.
Proof.
  intros Hq Hl La Hs Hdb Hext Hen Htr Hm Hb Hst.
  (* the call *)
  pose proof (add_simula_event_run PgHost.pg_host fuel ope act seconds w) as Hrun.
  cbv zeta in Hrun. rewrite La in Hrun.
  pose proof (registered_action_quote_free act a La) as Hqa.
  cbn [spi_run PgHost.pg_host] in Hrun. unfold PgHost.run in Hrun.
  rewrite (parse_insert_sql ope act seconds Hq Hqa Hs), Hdb in Hrun.
  cbn [PgHost.upsert existsb app] in Hrun.
  set (w1 := set_in_simula_event_progress false
               (set_db (Some [mkRow (c_str ope) (Some (c_str act)) (Some seconds)])
                  (requested PgHost.pg_host (insert_sql ope act seconds) false
                     (set_in_simula_event_progress true w)))) in *.
  assert (Hs1 : settings w1 = settings w).
  { unfold w1. transitivity (settings
      (requested PgHost.pg_host (insert_sql ope act seconds) false
         (set_in_simula_event_progress true w))); [reflexivity|].
    now rewrite (framed_requested settings _ _ _ _ framed_settings). }
  assert (Hf1 : fired w1 = fired w).
  { unfold w1. transitivity (fired
      (requested PgHost.pg_host (insert_sql ope act seconds) false
         (set_in_simula_event_progress true w))); [reflexivity|].
    now rewrite requested_keeps_fired. }
  unfold settings in Hs1. injection Hs1 as _ _ He1 Ht1 Hx1.
  assert (He1' : simulation_enabled w1 = true) by (rewrite <- Hen; exact He1).
  assert (Ht1' : transaction_state w1 = true) by (rewrite <- Htr; exact Ht1).
  assert (Hx : extension_oid_valid w1 = true) by (rewrite <- Hext; exact Hx1).
  assert (Hn1 : needReloadAndEvent tag w1 = true)
    by (apply needReloadAndEvent_true; try assumption; reflexivity).
  exists w1.
  (* the next interception *)
  set (e := rule (c_str ope) (c_str act) (atoi (fmt_d seconds))).
  assert (Hsel : spi_run PgHost.pg_host select_sql true (db w1)
                 = SpiReturn SPI_OK_SELECT
                     (Some [[Some (c_str ope); Some (c_str act); Some (fmt_d seconds)]])
                     (Some [mkRow (c_str ope) (Some (c_str act)) (Some seconds)]))
    by reflexivity.
  assert (Hc : Forall complete
                 [[Some (c_str ope); Some (c_str act); Some (fmt_d seconds)]])
    by (repeat constructor; discriminate).
  assert (Hla : lookup_action ActionTable (action e) = Some a).
  { unfold e, rule; cbn [action]. rewrite lookup_action_strncpy.
    now rewrite (lookup_action_nocase ActionTable (c_str act) act
                   (same_nocase_c_str act)). }
  assert (Hd : dispatchable tag e = true).
  { unfold dispatchable. apply andb_true_iff. split.
    - apply op_matches_short.
      + rewrite c_str_idempotent. exact Hl.
      + apply (same_nocase_trans _ ope); [apply same_nocase_c_str | exact Hm].
    - unfold registered_action. now rewrite lookup_action_at_action, Hla. }
  assert (F : find (dispatchable tag)
                (map rule_of_tuple
                   [[Some (c_str ope); Some (c_str act); Some (fmt_d seconds)]])
              = Some e).
  { cbn [map find].
    change (rule_of_tuple [Some (c_str ope); Some (c_str act); Some (fmt_d seconds)])
      with e.
    now rewrite Hd. }
  pose proof (hook_fresh_some PgHost.pg_host fuel point tag w1 _ _ e a
                Hn1 Hx Hsel Hc F Hla) as H.
  assert (Hse : sec e = seconds) by (unfold e; cbn [sec rule]; now apply atoi_fmt_d).
  rewrite Hse in H.
  destruct (refreshed_facts PgHost.pg_host
              [[Some (c_str ope); Some (c_str act); Some (fmt_d seconds)]]
              (Some [mkRow (c_str ope) (Some (c_str act)) (Some seconds)]) w1)
    as (_ & Rf & _).
  set (w2 := emit (EvFire (act_name a) seconds)
               (refreshed PgHost.pg_host
                  [[Some (c_str ope); Some (c_str act); Some (fmt_d seconds)]]
                  (Some [mkRow (c_str ope) (Some (c_str act)) (Some seconds)]) w1))
    in *.
  assert (Hf2 : fired w2 = (fired w ++ [EvFire (act_name a) seconds])%list)
    by (unfold w2; now rewrite fired_emit_fire, Rf, Hf1).
  rewrite H.
  destruct (registered_behaviour _ a seconds w2 La)
    as [[lvl ->] | [-> | [microsec ->]]]; cbn [world_of].
  - exists w2. now repeat split.
  - eexists. split; [exact Hrun|]. split; [reflexivity|].
    unfold fired. cbn [trace emit set_in_simula_event_progress].
    rewrite filter_app. cbn [filter is_fire]. rewrite app_nil_r. exact Hf2.
  - eexists. split; [exact Hrun|]. split; [reflexivity|].
    unfold fired. cbn [trace emit set_in_simula_event_progress].
    rewrite !filter_app. cbn [filter is_fire]. rewrite !app_nil_r. exact Hf2.
Qed.

Lemma added_rule_is_dispatched_witness :
  exists w1 w2,
    add_simula_event PgHost.pg_host (hook PgHost.pg_host 1) "SELECT" "Wait" 2 idle
    = Return true w1 /\
    world_of (hook PgHost.pg_host 2 Planner "select" w1) = Some w2 /\
    fired w2 = (fired idle ++ [EvFire "wait" 2])%list.
Proof.
  apply (added_rule_is_dispatched 0 Planner "SELECT" "Wait" 2 "select"
           (mkAction "wait" wait_func) idle);
    try reflexivity.
  - vm_compute. lia.
  - vm_compute. split; [discriminate | reflexivity].
  - vm_compute. discriminate.
  - vm_compute. discriminate.
Defined.

Lemma fired_emit_forward (point : HookPoint) (next : Handler) (tag : string)
  (w : World) :
  fired (emit (EvForward point next tag) w) = fired w.
Proof.
  unfold fired; cbn [trace emit]. rewrite filter_app; cbn.
  now rewrite app_nil_r.
Qed.

Lemma next_handler_settings (q : HookPoint) (w w' : World) :
  settings w' = settings w -> next_handler q w' = next_handler q w.
Proof.
  unfold settings. intros H. inversion H as [[H1 H2 H3 H4 H5]].
  destruct q; cbn [next_handler]; now rewrite ?H1, ?H2.
Qed.

(** The hook in a database where the extension is not created. *)
Lemma hook_not_loaded (host : Host) (fuel : nat) (point : HookPoint)
  (tag : string) (w : World) :
  needReloadAndEvent tag w = true ->
  extension_oid_valid w = false ->
  hook host (S (S fuel)) point tag w
  = Return (next_handler point w)
      (emit (EvForward point (next_handler point w) tag)
            (set_in_simula_event_progress false
               (set_SimulaEvents [] (after_register w)))).
Proof.
  intros Hn He.
  rewrite (hook_cycle host fuel point tag w Hn).
  destruct (cycle_start w) as (_ & _ & Hs1 & _).
  set (w1 := set_in_simula_event_progress true (after_register w)) in *.
  assert (He1 : extension_oid_valid w1 = false)
    by (unfold settings in Hs1; injection Hs1; congruence).
  rewrite (reloadEventTableData_not_loaded host _ w1 He1).
  unfold doEventIfAny. cbn [SimulaEvents set_SimulaEvents doEventIfAny_from].
  unfold ret.
  assert (Hnx : next_handler point (set_SimulaEvents [] w1) = next_handler point w)
    by (apply next_handler_settings; rewrite <- Hs1; reflexivity).
  now rewrite Hnx.
Qed.

(** X13.  In a database where the extension is not created, a hook whose
    guard predicate holds asks the backend nothing, empties the cache,
    fires nothing and forwards the statement, with the guard clear. *)
Theorem hook_without_extension (host : Host) (fuel : nat) (point : HookPoint)
  (tag : string) (w : World) :
  needReloadAndEvent tag w = true ->
  extension_oid_valid w = false ->
  exists w',
    hook host (S (S fuel)) point tag w = Return (next_handler point w) w' /\
    SimulaEvents w' = [] /\ fired w' = fired w /\ queries w' = queries w /\
    in_simula_event_progress w' = false.
Proof.
  intros Hn He.
  rewrite (hook_not_loaded host fuel point tag w Hn He).
  eexists. split; [reflexivity|].
  split; [reflexivity|]. split; [|split; [|reflexivity]].
  - unfold fired. cbn [trace emit set_in_simula_event_progress set_SimulaEvents].
    rewrite filter_app. cbn [filter is_fire]. rewrite app_nil_r.
    apply fired_after_register.
  - rewrite queries_emit. cbn [is_query]. rewrite app_nil_r.
    unfold queries, after_register.
    now destruct (registered_to_callback w).
Qed.

Lemma hook_without_extension_witness :
  exists w',
    hook PgHost.pg_host 2 Planner "SELECT"
      (mkWorld shadowed_cache false false false true true true false None [])
    = Return StandardHandler w' /\
    SimulaEvents w' = [] /\ fired w' = [] /\ queries w' = [] /\
    in_simula_event_progress w' = false.
Proof.
  apply (hook_without_extension PgHost.pg_host 0 Planner "SELECT"
           (mkWorld shadowed_cache false false false true true true false None []));
    reflexivity.
Defined.

(** X14.  On the reference backend, [clear_all_events] empties the rule
    relation and returns true, and the next interception, whatever its
    tag and whatever rules the relation or the cache held, fires nothing
    and forwards the statement. *)
Theorem cleared_rules_inject_nothing (fuel fuel' : nat) (point : HookPoint)
  (tag : string) (rows : list Row) (w : World) :
  db w = Some rows ->
  exists w1 w2,
    clear_all_events PgHost.pg_host (hook PgHost.pg_host (S fuel)) w
    = Return true w1 /\
    db w1 = Some [] /\
    hook PgHost.pg_host (S (S fuel')) point tag w1
    = Return (next_handler point w) w2 /\
    fired w2 = fired w.
Proof.
  intros Hdb.
  pose proof (clear_all_events_run PgHost.pg_host fuel w) as Hrun.
  cbv zeta in Hrun. rewrite Hdb in Hrun.
  change (spi_run PgHost.pg_host truncate_sql false (Some rows))
    with (SpiReturn PgHost.SPI_OK_UTILITY None (Some [])) in Hrun.
  set (w1 := set_in_simula_event_progress false
               (set_db (Some [])
                  (requested PgHost.pg_host truncate_sql false
                     (set_in_simula_event_progress true w)))) in *.
  assert (Hs1 : settings w1 = settings w).
  { unfold w1. transitivity (settings
      (requested PgHost.pg_host truncate_sql false
         (set_in_simula_event_progress true w))); [reflexivity|].
    now rewrite (framed_requested settings _ _ _ _ framed_settings). }
  assert (Hf1 : fired w1 = fired w).
  { unfold w1. transitivity (fired
      (requested PgHost.pg_host truncate_sql false
         (set_in_simula_event_progress true w))); [reflexivity|].
    now rewrite requested_keeps_fired. }
  pose proof (next_handler_settings point w w1 Hs1) as Hnx.
  exists w1.
  destruct (needReloadAndEvent tag w1) eqn:Hn.
  - destruct (extension_oid_valid w1) eqn:He.
    + rewrite (hook_fresh_none PgHost.pg_host fuel' point tag w1 [] (Some [])
                 Hn He eq_refl (Forall_nil _) eq_refl).
      destruct (refreshed_facts PgHost.pg_host [] (Some []) w1) as (_ & Rf & _).
      eexists. rewrite Hnx. split; [exact Hrun|]. split; [reflexivity|].
      split; [reflexivity|].
      rewrite fired_emit_forward.
      transitivity (fired (refreshed PgHost.pg_host [] (Some []) w1));
        [reflexivity|]. now rewrite Rf.
    + rewrite (hook_not_loaded PgHost.pg_host fuel' point tag w1 Hn He).
      eexists. rewrite Hnx. split; [exact Hrun|]. split; [reflexivity|].
      split; [reflexivity|].
      rewrite fired_emit_forward.
      transitivity (fired (after_register w1)); [reflexivity|].
      now rewrite (fired_after_register w1).
  - rewrite (hook_forwards_only PgHost.pg_host (S fuel') point tag w1 Hn).
    exists (forwarded point tag w1).
    rewrite forwarded_keeps_fired, Hnx, Hf1. now repeat split.
Qed.

Lemma cleared_rules_inject_nothing_witness :
  exists w1 w2,
    clear_all_events PgHost.pg_host (hook PgHost.pg_host 1) armed = Return true w1 /\
    db w1 = Some [] /\
    hook PgHost.pg_host 2 Utility "DROP TABLE" w1 = Return StandardHandler w2 /\
    fired w2 = fired armed.
Proof.
  apply (cleared_rules_inject_nothing 0 0 Utility "DROP TABLE"
           [mkRow "DROP TABLE" (Some "error") (Some 0)] armed).
  reflexivity.
Defined.

Lemma add_simula_event_twice_witness :
  exists w1 w2 rows2,
    add_simula_event PgHost.pg_host (hook PgHost.pg_host 1) "SELECT" "wait" 2 armed
    = Return true w1 /\
    add_simula_event PgHost.pg_host (hook PgHost.pg_host 1) "SELECT" "error" 0 w1
    = Return true w2 /\
    db w2 = Some rows2 /\
    key_unique rows2 /\
    filter (PgHost.has_key "SELECT") rows2 = [mkRow "SELECT" (Some "error") (Some 0)] /\
    filter (fun r => negb (PgHost.has_key "SELECT" r)) rows2
    = [mkRow "DROP TABLE" (Some "error") (Some 0)].
Proof.
  apply (add_simula_event_twice 0 "SELECT" "wait" "error" 2 0
           [mkRow "DROP TABLE" (Some "error") (Some 0)] armed);
    try reflexivity; try discriminate.
  - vm_compute. split; [discriminate | reflexivity].
  - vm_compute. split; [discriminate | reflexivity].
  - repeat constructor. intros [].
Defined.

(** ** The connection gate and the hook variables *)

(** X15.  The connection gate lets a connection through exactly when
    [pg_simula.connection_refuse] is off.  When it is on, the result of
    the authentication plays no part: the process exits quietly with code
    0 if the client is gone, and every other connection, an authenticated
    one included, is ended at FATAL with SQLSTATE 28000. *)
Theorem connection_gate (connection_refused : bool) (status : Z) :
  (pg_simula_ClientAuthentication connection_refused status = auth_returns
   <-> connection_refused = false)
  /\
  (connection_refused = true ->
   pg_simula_ClientAuthentication connection_refused status
   = if status =? STATUS_EOF then auth_proc_exit 0
     else auth_fatal "28000" "authentication failed by pg_simula")
  /\
  (connection_refused = true ->
   forall status',
     status <> STATUS_EOF -> status' <> STATUS_EOF ->
     pg_simula_ClientAuthentication connection_refused status
     = pg_simula_ClientAuthentication connection_refused status').
Proof.
  unfold pg_simula_ClientAuthentication.
  destruct connection_refused; cbn [negb].
  - split; [|split].
    + split; [|discriminate]. now destruct (status =? STATUS_EOF).
    + reflexivity.
    + intros _ status' H1 H2.
      apply Z.eqb_neq in H1, H2. now rewrite H1, H2.
  - split; [tauto|]. split; discriminate.
Qed.

Lemma connection_gate_witness :
  pg_simula_ClientAuthentication true 0
  = auth_fatal "28000" "authentication failed by pg_simula".
Proof.
  apply (proj1 (proj2 (connection_gate true 0))). reflexivity.
Defined.

(** X16.  Loading then unloading the module puts the planner and utility
    hook variables back as they were found, but leaves the
    authentication hook on the module's gate.  Unloading while a module
    loaded later is hooked in drops that module's planner and utility
    hooks as well. *)
Theorem load_unload_hooks (h : Loader.Hooks) (id : nat) :
  Loader.planner_hook (Loader._PG_fini (Loader._PG_init h)) = Loader.planner_hook h /\
  Loader.ProcessUtility_hook (Loader._PG_fini (Loader._PG_init h))
  = Loader.ProcessUtility_hook h /\
  Loader.ClientAuthentication_hook (Loader._PG_fini (Loader._PG_init h))
  = Some Loader.pg_simula_fn /\
  Loader.planner_hook (Loader._PG_fini (Loader.foreign_init id (Loader._PG_init h)))
  = Loader.planner_hook h /\
  Loader.ProcessUtility_hook
    (Loader._PG_fini (Loader.foreign_init id (Loader._PG_init h)))
  = Loader.ProcessUtility_hook h.
Proof. repeat split. Qed.
